(** * Dependency visualizer: the dependency-graph builder of [dependency_viz.py]

    A shallow embedding of the three methods of [DependencyVisualizer] that
    talk to the registry,

      - [get_latest_version]              (version resolver, memoised),
      - [fetch_dependencies_for_package]  (dependency fetcher with filter and
                                           fallback on HTTP 404),
      - [build_dependency_graph]          (depth-1 graph builder),

    followed by the properties of the specification that concern them.

    Modelling choices.
      - The object's mutable fields ([deps], [all_deps_graph], [visited],
        [version_cache]) form a record [state] that is threaded through every
        call; [self.args] is a record [Args] that the three methods only read.
      - The registry is outside the program.  It is a function from the
        requests sent so far and the request being sent to a response, so an
        answer may change from one call to the next (a timeout now, a 200
        later).  The state records every request sent, oldest first: "no
        network call" is "the record did not grow".
      - [try: ... except Exception] is modelled with an outcome type that has
        a constructor for a raised exception.  The exceptions are those of
        class [Exception] that the try blocks can meet: a failed
        [requests.get], a body that [response.json()] rejects, a missing key.
      - A JSON body is modelled as far as the program reads it: the
        [newest_version] field is a string or null (Python's [None], which the
        program tests for), a [crate_id] is a string.
      - The [version] argument of [fetch_dependencies_for_package] is an
        [option string]: [None] is Python's [None], the default of the
        argument.
      - [print] calls are diagnostics and are left out; interrupts
        ([KeyboardInterrupt] is not of class [Exception]) are outside the
        model.
      - The recursion of [fetch_dependencies_for_package] is bounded by a
        budget; [fetch_budget] shows that a budget of two is never exhausted. *)

From stdpp Require Import gmap strings list fin_maps.
From Stdlib Require Import ZArith Ascii.

Local Open Scope string_scope.
Local Open Scope Z_scope.
Local Open Scope list_scope.

(** ** Strings *)

(** Python's [needle in hay] on strings. *)
Fixpoint contains (needle hay : string) : bool :=
  String.prefix needle hay ||
  match hay with
  | EmptyString => false
  | String _ rest => contains needle rest
  end.

(** Python's truth value of a string. *)
Definition truthy (s : string) : bool := negb (String.eqb s "").

(** ** The registry *)

Inductive request : Type :=
  | GetCrate (package : string)
      (* GET https://crates.io/api/v1/crates/{package} *)
  | GetDependencies (package version : string).
      (* GET https://crates.io/api/v1/crates/{package}/{version}/dependencies *)

(** The parsed body, as far as the program looks into it. *)
Record json : Type := Json {
  (* data['crate']['newest_version']; [None]: the lookup raises KeyError;
     [Some None]: the field is null, Python's None; [Some (Some v)]: the
     string v *)
  newest_version : option (option string);
  (* data.get('dependencies', []) as the list of dep['crate_id'];
     outer [None]: no such key; inner [None]: an entry without crate_id *)
  dependencies : option (list (option string))
}.

Inductive response : Type :=
  | ConnectionError
      (* requests.get raises: timeout, DNS failure, connection reset *)
  | Http (status_code : Z) (body : option json).
      (* body [None]: response.json() raises *)

Definition registry : Type := list request → request → response.

Definition request_package (r : request) : string :=
  match r with
  | GetCrate p => p
  | GetDependencies p _ => p
  end.

Definition is_dependency_query (p : string) (r : request) : bool :=
  match r with
  | GetCrate _ => false
  | GetDependencies q _ => String.eqb p q
  end.

(** ** Program state and configuration *)

Record Args : Type := MkArgs {
  package : string;
  version : string;
  filter : string
}.

Record state : Type := MkState {
  deps : gmap string (list string);
  all_deps_graph : gmap string (list string);
  visited : gset string;
  (* a cached value is a string, or Python's None when the registry sent
     null *)
  version_cache : gmap string (option string);
  sent : list request
}.

(** [DependencyVisualizer.__init__], before any request. *)
Definition init : state :=
  {| deps := ∅; all_deps_graph := ∅; visited := ∅; version_cache := ∅;
     sent := [] |}.

Definition set_deps (g : gmap string (list string)) (st : state) : state :=
  {| deps := g; all_deps_graph := all_deps_graph st; visited := visited st;
     version_cache := version_cache st; sent := sent st |}.

Definition set_all_deps_graph (g : gmap string (list string)) (st : state)
  : state :=
  {| deps := deps st; all_deps_graph := g; visited := visited st;
     version_cache := version_cache st; sent := sent st |}.

Definition set_visited (v : gset string) (st : state) : state :=
  {| deps := deps st; all_deps_graph := all_deps_graph st; visited := v;
     version_cache := version_cache st; sent := sent st |}.

Definition set_version_cache (c : gmap string (option string)) (st : state)
  : state :=
  {| deps := deps st; all_deps_graph := all_deps_graph st;
     visited := visited st; version_cache := c; sent := sent st |}.

Definition record_request (r : request) (st : state) : state :=
  {| deps := deps st; all_deps_graph := all_deps_graph st;
     visited := visited st; version_cache := version_cache st;
     sent := sent st ++ [r] |}.

(** ** Computations: state, exceptions, recursion budget *)

Inductive exn : Type := NetworkError | DecodeError | KeyError | OSError.

Inductive outcome (A : Type) : Type :=
  | Returned (a : A)
  | Raised (e : exn)
  | OutOfBudget.
Arguments Returned {A} a.
Arguments Raised {A} e.
Arguments OutOfBudget {A}.

Definition M (A : Type) : Type := state → outcome A * state.

#[export] Instance M_ret : MRet M := λ A a st, (Returned a, st).

#[export] Instance M_bind : MBind M := λ A B f m st,
  match m st with
  | (Returned a, st') => f a st'
  | (Raised e, st') => (Raised e, st')
  | (OutOfBudget, st') => (OutOfBudget, st')
  end.

Definition raise {A : Type} (e : exn) : M A := λ st, (Raised e, st).

Definition out_of_budget {A : Type} : M A := λ st, (OutOfBudget, st).

(** [try: body except Exception: handler]: what the body did to the state
    before raising stays done. *)
Definition try_except {A : Type} (body : M A) (handler : exn → M A) : M A :=
  λ st,
  match body st with
  | (Raised e, st') => handler e st'
  | r => r
  end.

Definition get_state : M state := λ st, (Returned st, st).

Definition modify (f : state → state) : M unit := λ st, (Returned tt, f st).

(** A key lookup that raises KeyError when the key is absent. *)
Definition subscript {A : Type} (field : option A) : M A :=
  match field with
  | Some a => mret a
  | None => raise KeyError
  end.

(** ** Sample registries and configurations *)

(** A registry that answers from two tables: the newest version of each
    crate, and the dependencies of each version.  What is not in a table is
    answered with 404. *)
Definition table_registry (newest : string → option string)
    (listed : string → string → option (list string)) : registry :=
  λ _ r,
  match r with
  | GetCrate p =>
      match newest p with
      | Some v =>
          Http 200 (Some {| newest_version := Some (Some v);
                            dependencies := None |})
      | None => Http 404 None
      end
  | GetDependencies p v =>
      match listed p v with
      | Some names =>
          Http 200 (Some {| newest_version := None;
                            dependencies := Some (map Some names) |})
      | None => Http 404 None
      end
  end.

(** The registry of the scenarios of the specification: "demo" has no
    version 2.0, its newest version is 3.1. *)
Definition demo_registry : registry :=
  table_registry
    (λ p, if String.eqb p "demo" then Some "3.1" else Some "1.0")
    (λ p v,
       if String.eqb p "demo" then
         if String.eqb v "3.1" then Some ["serde_json"; "tokio"] else None
       else if String.eqb p "tokio" then Some ["mio"]
       else Some []).

(** A registry whose list for "demo" 1.0 has an entry without [crate_id]. *)
Definition partial_registry : registry :=
  λ _ r,
  match r with
  | GetCrate _ => Http 404 None
  | GetDependencies _ _ =>
      Http 200 (Some {| newest_version := None;
                        dependencies := Some [Some "tokio"; None] |})
  end.

(** A registry whose newest-version field is null for every crate. *)
Definition null_registry : registry :=
  λ _ r,
  match r with
  | GetCrate _ =>
      Http 200 (Some {| newest_version := Some None; dependencies := None |})
  | GetDependencies _ _ => Http 404 None
  end.

(** A file system on which every file can be written. *)
Definition all_openable : string → bool := λ _, true.

(** A registry that cannot be reached. *)
Definition offline : registry := λ _ _, ConnectionError.

(** A registry whose newest version of every crate is named "latest". *)
Definition latest_registry : registry :=
  table_registry (λ _, Some "latest") (λ _ _, Some []).

Definition demo_args : Args :=
  {| package := "demo"; version := "2.0"; filter := "serde" |}.

Definition plain_args : Args :=
  {| package := "demo"; version := "2.0"; filter := "" |}.

Definition mio_args : Args :=
  {| package := "mio"; version := "1.0"; filter := "" |}.

(** A registry where "app" 1.0 depends on a, b, a again, d and e, and every
    other crate on "x". *)
Definition app_registry : registry :=
  table_registry
    (λ _, Some "1.0")
    (λ p _, if String.eqb p "app" then Some ["a"; "b"; "a"; "d"; "e"]
            else Some ["x"]).

Definition app_args : Args :=
  {| package := "app"; version := "1.0"; filter := "" |}.

(** ** Graphviz output (lines 153-239) *)

(** The double quote and the line feed, which a string literal cannot hold. *)
Definition quote : string := String "034"%char EmptyString.
Definition nl : string := String "010"%char EmptyString.

(** Lines 221-222: the head of the DOT text, up to the root node. *)
Definition dot_header (package : string) : string :=
  "digraph {" +:+ nl +:+ "  rankdir=LR;" +:+ nl +:+ "  node [shape=box];"
  +:+ nl +:+ nl +:+
  "  " +:+ quote +:+ package +:+ quote +:+ " [color=blue];" +:+ nl +:+ nl.

(** Line 227: one edge. *)
Definition edge_line (package dep : string) : string :=
  "  " +:+ quote +:+ package +:+ quote +:+ " -> " +:+ quote +:+ dep +:+ quote
  +:+ ";" +:+ nl.

(** Lines 226-227: the inner loop, appending to [dot_content]. *)
Fixpoint add_edges (package : string) (deps : list string)
    (dot_content : string) : string :=
  match deps with
  | [] => dot_content
  | dep :: rest => add_edges package rest (dot_content +:+ edge_line package dep)
  end.

(** Lines 225-227: the outer loop over the items of the dict. *)
Fixpoint add_items (items : list (string * list string))
    (dot_content : string) : string :=
  match items with
  | [] => dot_content
  | (package, deps) :: rest => add_items rest (add_edges package deps dot_content)
  end.

(** Lines 221-229: the text that [create_dot_file_only] writes, for the items
    of [all_deps_graph] in the order in which the dict yields them. *)
Definition dot_content (package : string) (items : list (string * list string))
  : string :=
  add_items items (dot_header package) +:+ "}" +:+ nl.

(** The edges of a graph, in the order of its items. *)
Definition edges (items : list (string * list string))
  : list (string * string) :=
  flat_map (λ item, map (pair (fst item)) (snd item)) items.

(** The concatenation of a list of strings. *)
Fixpoint concat_strings (parts : list string) : string :=
  match parts with
  | [] => EmptyString
  | part :: rest => part +:+ concat_strings rest
  end.

(** A name without a double quote. *)
Fixpoint quote_free (s : string) : Prop :=
  match s with
  | EmptyString => True
  | String c rest => c ≠ "034"%char ∧ quote_free rest
  end.

(** A file handed to [open(..., "w")]: its name, and the root and the graph
    its text is made from.  The text is [dot_content root items] for the
    items of the graph in the dict's order, which the map does not keep. *)
Record written : Type := DotFile {
  file_name : string;
  file_root : string;
  file_graph : gmap string (list string)
}.

(** [create_dot_file_only] (lines 216-239): nothing for an empty graph, else
    one file named after the package.  [openable name] tells whether
    [open(name, "w")] and the write succeed; the method has no [try] around
    them, so a failure is raised to the caller. *)
Definition create_dot_file_only (openable : string → bool) (args : Args)
    (st : state) : outcome (list written) :=
  if bool_decide (all_deps_graph st = ∅) then Returned []
  else if openable (package args +:+ "_deps.dot") then
    Returned [{| file_name := package args +:+ "_deps.dot";
                 file_root := package args;
                 file_graph := all_deps_graph st |}]
  else Raised OSError.

(** The calls that lines 180-191 of [generate_graphviz] make on the
    [Digraph] object. *)
Inductive digraph_call : Type :=
  | Node (name label : string) (attributes : list (string * string))
  | Edge (tail head : string).

Definition digraph_calls (package : string)
    (items : list (string * list string)) : list digraph_call :=
  Node package package [("shape", "box"); ("color", "blue")] ::
  flat_map
    (λ item,
       (if bool_decide (fst item ≠ package)
        then [Node (fst item) (fst item) []] else [])
       ++ map (Edge (fst item)) (snd item))
    items.

Definition edge_calls (calls : list digraph_call) : list (string * string) :=
  flat_map (λ c, match c with
                 | Edge a b => [(a, b)]
                 | Node _ _ _ => []
                 end) calls.

Definition declares (name : string) (c : digraph_call) : bool :=
  match c with
  | Node n _ _ => String.eqb n name
  | Edge _ _ => false
  end.

(** ** [run_three_examples] (lines 241-279) *)

(** Lines 243-247. *)
Definition examples : list (string * string) :=
  [("serde", "latest"); ("tokio", "1.0"); ("clap", "4.0")].

(** Lines 263-267: the four fields are cleared; the record of requests sent
    is history and stays. *)
Definition reset (st : state) : state :=
  {| deps := ∅; all_deps_graph := ∅; visited := ∅; version_cache := ∅;
     sent := sent st |}.

(** The object during a batch: its arguments, which the batch assigns to,
    its state, and the files written so far. *)
Record session : Type := Session {
  session_args : Args;
  session_state : state;
  session_files : list written
}.

(** Lines 260-274, one round of the loop.  [build a] stands for
    [self.build_dependency_graph()] under the arguments [a]. *)
Definition analyse_example (build : Args → M unit) (openable : string → bool)
    (example : string * string) (w : session) : outcome unit * session :=
  let args := {| package := fst example; version := snd example;
                 filter := filter (session_args w) |} in
  match build args (reset (session_state w)) with
  | (Returned _, st) =>
      match create_dot_file_only openable args st with
      | Returned files =>
          (Returned tt,
           {| session_args := args; session_state := st;
              session_files := session_files w ++ files |})
      | Raised e =>
          (Raised e,
           {| session_args := args; session_state := st;
              session_files := session_files w |})
      | OutOfBudget =>
          (OutOfBudget,
           {| session_args := args; session_state := st;
              session_files := session_files w |})
      end
  | (Raised e, st) =>
      (Raised e,
       {| session_args := args; session_state := st;
          session_files := session_files w |})
  | (OutOfBudget, st) =>
      (OutOfBudget,
       {| session_args := args; session_state := st;
          session_files := session_files w |})
  end.

Fixpoint analyse_all (build : Args → M unit) (openable : string → bool)
    (todo : list (string * string)) (w : session) : outcome unit * session :=
  match todo with
  | [] => (Returned tt, w)
  | example :: rest =>
      match analyse_example build openable example w with
      | (Returned _, w') => analyse_all build openable rest w'
      | failure => failure
      end
  end.

(** Lines 253-279: the loop, then [self.args.package = original_package];
    an exception in the loop skips the assignment. *)
Definition run_three_examples (build : Args → M unit)
    (openable : string → bool) (w : session) : outcome unit * session :=
  let original_package := package (session_args w) in
  match analyse_all build openable examples w with
  | (Returned _, w') =>
      (Returned tt,
       {| session_args :=
            {| package := original_package;
               version := version (session_args w');
               filter := filter (session_args w') |};
          session_state := session_state w';
          session_files := session_files w' |})
  | failure => failure
  end.

(** A session on a freshly created object with the given filter, after the
    given requests. *)
Definition fresh_session (f : string) (history : list request) : session :=
  {| session_args := {| package := ""; version := ""; filter := f |};
     session_state := {| deps := ∅; all_deps_graph := ∅; visited := ∅;
                         version_cache := ∅; sent := history |};
     session_files := [] |}.

Section Dependency_viz.

Variable reg : registry.
Variable args : Args.

(** [requests.get(url, timeout=10)]. *)
Definition requests_get (r : request) : M (Z * option json) := λ st,
  match reg (sent st) r with
  | ConnectionError => (Raised NetworkError, record_request r st)
  | Http code body => (Returned (code, body), record_request r st)
  end.

(** [response.json()]. *)
Definition response_json (body : option json) : M json :=
  match body with
  | Some data => mret data
  | None => raise DecodeError
  end.

(** [self.args.filter and self.args.filter in name]. *)
Definition excluded (name : string) : bool :=
  truthy (filter args) && contains (filter args) name.

(** ** [get_latest_version] (lines 39-58) *)
Definition get_latest_version (package : string) : M (option string) :=
  st ← get_state;
  match version_cache st !! package with
  | Some cached => mret cached
  | None =>
      try_except
        (response ← requests_get (GetCrate package);
         if fst response =? 200 then
           data ← response_json (snd response);
           latest ← subscript (newest_version data);
           modify (λ st, set_version_cache
                           (<[package := latest]> (version_cache st)) st);;
           mret latest
         else mret None)
        (λ _, mret None)
  end.

(** ** [fetch_dependencies_for_package] (lines 60-102) *)

(** The loop of lines 82-88 over the entries of the body. *)
Fixpoint collect (entries : list (option string)) (dependencies : list string)
  : M (list string) :=
  match entries with
  | [] => mret dependencies
  | dep :: rest =>
      dep_name ← subscript dep;
      if excluded dep_name then collect rest dependencies
      else collect rest (dependencies ++ [dep_name])
  end.

(** The body of the method, with [self_call] for the method itself. *)
Definition fetch_body (self_call : string → option string → M (list string))
    (package : string) (version : option string) : M (list string) :=
  if excluded package then mret []
  else
    resolved ←
      (if bool_decide (version = None ∨ version = Some "latest") then
         get_latest_version package
       else mret version);
    match resolved with
    | None => mret []
    | Some actual_version =>
        if negb (truthy actual_version) then mret []
        else
          try_except
            (response ← requests_get (GetDependencies package actual_version);
             if fst response =? 200 then
               data ← response_json (snd response);
               collect (default [] (dependencies data)) []
             else if fst response =? 404 then
               latest ← get_latest_version package;
               match latest with
               | Some latest =>
                   if truthy latest
                      && negb (String.eqb latest actual_version)
                   then self_call package (Some latest)
                   else mret []
               | None => mret []
               end
             else mret [])
            (λ _, mret [])
    end.

(** The method.  [budget] bounds the depth of the calls the method makes to
    itself; [fetch_returns] and [fetch_budget] show that two is enough for
    every call. *)
Fixpoint fetch_dependencies_for_package (budget : nat)
    (package : string) (version : option string) : M (list string) :=
  match budget with
  | O => out_of_budget
  | S budget' =>
      fetch_body (fetch_dependencies_for_package budget') package version
  end.

(** ** [build_dependency_graph] (lines 104-127) *)

(** One round of the loop of lines 120-125. *)
Definition expand (budget : nat) (dep : string) : M unit :=
  st ← get_state;
  if bool_decide (dep ∈ visited st) then mret tt
  else
    modify (λ st, set_visited ({[dep]} ∪ visited st) st);;
    sub_deps ← fetch_dependencies_for_package budget dep (Some "latest");
    match sub_deps with
    | [] => mret tt
    | _ :: _ =>
        modify (λ st, set_all_deps_graph
                        (<[dep := sub_deps]> (all_deps_graph st)) st)
    end.

(** [for x in xs: body(x)]. *)
Fixpoint for_each {A : Type} (xs : list A) (body : A → M unit) : M unit :=
  match xs with
  | [] => mret tt
  | x :: rest => body x;; for_each rest body
  end.

Definition build_dependency_graph (budget : nat) : M unit :=
  direct_deps ←
    fetch_dependencies_for_package budget (package args) (Some (version args));
  match direct_deps with
  | [] =>
      modify (set_deps {[package args := []]});;
      modify (set_all_deps_graph {[package args := []]})
  | _ :: _ =>
      modify (set_deps {[package args := direct_deps]});;
      modify (set_all_deps_graph {[package args := direct_deps]});;
      for_each (take 3 direct_deps) (expand budget)
  end.

(** * Specification-side definitions *)

(** ** The resolver *)

(** What a metadata reply yields: the value to store, if any.  The value is
    a version, or Python's None when the field is null. *)
Definition reply_version (r : response) : option (option string) :=
  match r with
  | Http code (Some data) => if code =? 200 then newest_version data else None
  | _ => None
  end.

(** The three ways a call of [get_latest_version] goes. *)
Inductive resolves (p : string) (st : state) : option string → state → Prop :=
  | resolves_hit v :
      version_cache st !! p = Some v →
      resolves p st v st
  | resolves_store v :
      version_cache st !! p = None →
      reply_version (reg (sent st) (GetCrate p)) = Some v →
      resolves p st v
        (set_version_cache (<[p := v]> (version_cache st))
           (record_request (GetCrate p) st))
  | resolves_fail :
      version_cache st !! p = None →
      reply_version (reg (sent st) (GetCrate p)) = None →
      resolves p st None (record_request (GetCrate p) st).

(** ** The fetcher, piece by piece *)

(** Lines 65-71: the version to ask for. *)
Definition determine_version (p : string) (v : option string)
  : M (option string) :=
  if bool_decide (v = None ∨ v = Some "latest") then get_latest_version p
  else mret v.

(** Lines 78-102: the try block and its handler. *)
Definition query (self_call : string → option string → M (list string))
    (p actual_version : string) : M (list string) :=
  try_except
    (response ← requests_get (GetDependencies p actual_version);
     if fst response =? 200 then
       data ← response_json (snd response);
       collect (default [] (dependencies data)) []
     else if fst response =? 404 then
       latest ← get_latest_version p;
       match latest with
       | Some latest =>
           if truthy latest && negb (String.eqb latest actual_version)
           then self_call p (Some latest)
           else mret []
       | None => mret []
       end
     else mret [])
    (λ _, mret []).

(** The names the loop of lines 82-88 keeps. *)
Definition kept (names : list string) : list string :=
  List.filter (λ d, negb (excluded d)) names.

(** The [crate_id] of every entry, if every entry has one. *)
Fixpoint crate_ids (entries : list (option string)) : option (list string) :=
  match entries with
  | [] => Some []
  | entry :: rest =>
      match entry, crate_ids rest with
      | Some name, Some names => Some (name :: names)
      | _, _ => None
      end
  end.

(** What a 200 reply of the dependency endpoint makes the method return. *)
Definition listing (body : option json) : list string :=
  match body with
  | Some data =>
      match crate_ids (default [] (dependencies data)) with
      | Some names => kept names
      | None => []
      end
  | None => []
  end.

(** ** A big-step description of the fetcher *)

(** How lines 65-71 choose the version to ask for. *)
Inductive determined (p : string) (st : state)
  : option string → option string → state → Prop :=
  | determined_latest v r st1 :
      v = None ∨ v = Some "latest" →
      resolves p st r st1 →
      determined p st v r st1
  | determined_given x :
      x ≠ "latest" →
      determined p st (Some x) (Some x) st.

(** [fetches p v st ds st']: called with [p] and [v] in state [st], the
    method returns [ds] and leaves state [st'].  One rule per path. *)
Inductive fetches (p : string)
  : option string → state → list string → state → Prop :=
  | fetches_excluded v st :
      excluded p = true →
      fetches p v st [] st
  | fetches_not_found v st st1 :
      excluded p = false →
      determined p st v None st1 →
      fetches p v st [] st1
  | fetches_empty_version v st st1 :
      excluded p = false →
      determined p st v (Some "") st1 →
      fetches p v st [] st1
  | fetches_connection_error v st a st1 :
      excluded p = false →
      determined p st v (Some a) st1 → a ≠ "" →
      reg (sent st1) (GetDependencies p a) = ConnectionError →
      fetches p v st [] (record_request (GetDependencies p a) st1)
  | fetches_listing v st a st1 body :
      excluded p = false →
      determined p st v (Some a) st1 → a ≠ "" →
      reg (sent st1) (GetDependencies p a) = Http 200 body →
      fetches p v st (listing body)
        (record_request (GetDependencies p a) st1)
  | fetches_other_status v st a st1 code body :
      excluded p = false →
      determined p st v (Some a) st1 → a ≠ "" →
      reg (sent st1) (GetDependencies p a) = Http code body →
      code ≠ 200 → code ≠ 404 →
      fetches p v st [] (record_request (GetDependencies p a) st1)
  | fetches_no_fallback v st a st1 body latest st2 :
      excluded p = false →
      determined p st v (Some a) st1 → a ≠ "" →
      reg (sent st1) (GetDependencies p a) = Http 404 body →
      resolves p (record_request (GetDependencies p a) st1) latest st2 →
      latest = None ∨ latest = Some "" ∨ latest = Some a →
      fetches p v st [] st2
  | fetches_fallback v st a st1 body l st2 ds st3 :
      excluded p = false →
      determined p st v (Some a) st1 → a ≠ "" →
      reg (sent st1) (GetDependencies p a) = Http 404 body →
      resolves p (record_request (GetDependencies p a) st1) (Some l) st2 →
      l ≠ "" → l ≠ a →
      fetches p (Some l) st2 ds st3 →
      fetches p v st ds st3.

(** ** What a call leaves untouched *)

(** [about p st st']: from [st] to [st'] only requests about package [p]
    were sent, and the graph and the visited set did not change. *)
Definition about (p : string) (st st' : state) : Prop :=
  deps st' = deps st ∧ all_deps_graph st' = all_deps_graph st ∧
  visited st' = visited st ∧
  ∃ suffix, sent st' = sent st ++ suffix ∧
            Forall (λ r, request_package r = p) suffix.

(** ** Resolving first *)

(** Lines 65-74 when the resolver is asked: the method is the resolver call
    followed by the rest of the method on the resolved version. *)
Definition resolves_first (budget : nat) (p : string) (v : option string)
    (st : state) : Prop :=
  fetch_dependencies_for_package (S budget) p v st =
  (resolved ← get_latest_version p;
   match resolved with
   | None => mret []
   | Some actual_version =>
       if negb (truthy actual_version) then mret []
       else query (fetch_dependencies_for_package budget) p actual_version
   end) st.

(** ** Runs *)

(** [cache_evolves st st']: the cache of [st'] has every entry of the cache
    of [st], and each further entry is the version that the registry gave in
    some metadata reply. *)
Definition cache_evolves (st st' : state) : Prop :=
  version_cache st ⊆ version_cache st' ∧
  ∀ q v, version_cache st' !! q = Some v →
         version_cache st !! q = Some v ∨
         ∃ tr, reply_version (reg tr (GetCrate q)) = Some v.

(** A computation keeps a relation between the state it starts in and the
    state it ends in, whatever its outcome. *)
Definition keeps {A : Type} (R : state → state → Prop) (m : M A) : Prop :=
  ∀ st o st', m st = (o, st') → R st st'.

(** A computation returns: it neither raises nor runs out of budget. *)
Definition returns {A : Type} (m : M A) : Prop :=
  ∀ st, ∃ a st', m st = (Returned a, st').

(** The calls that make up a run of the program, between two resets of the
    state. *)
Inductive call : Type :=
  | Resolve (p : string)
  | Fetch (p : string) (v : option string)
  | Build.

Definition perform (budget : nat) (c : call) (st : state) : state :=
  match c with
  | Resolve p => snd (get_latest_version p st)
  | Fetch p v => snd (fetch_dependencies_for_package budget p v st)
  | Build => snd (build_dependency_graph budget st)
  end.

Definition perform_all (budget : nat) (cs : list call) (st : state) : state :=
  fold_left (λ st c, perform budget c st) cs st.

(** ** Failures *)

(** A reply that is not a usable 200: no connection, another status, a body
    that cannot be read, or an entry without [crate_id]. *)
Definition failed (r : response) : Prop :=
  match r with
  | ConnectionError => True
  | Http code body =>
      code ≠ 200 ∨
      match body with
      | None => True
      | Some data => crate_ids (default [] (dependencies data)) = None
      end
  end.

(** A reply with a bad status, or no reply at all. *)
Definition no_success (r : response) : Prop :=
  match r with
  | ConnectionError => True
  | Http code _ => code ≠ 200
  end.

(** ** Expansion *)

(** The names that the loop of lines 120-125 expands, in order, when it runs
    over [entries] with [seen] already visited: each entry not seen before,
    once. *)
Fixpoint expansion_plan (seen : gset string) (entries : list string)
  : list string :=
  match entries with
  | [] => []
  | d :: rest =>
      if bool_decide (d ∈ seen) then expansion_plan seen rest
      else d :: expansion_plan ({[d]} ∪ seen) rest
  end.

(** Expanding one name: lines 122-125, without the test of line 121. *)
Definition expand_one (budget : nat) (dep : string) : M unit :=
  modify (λ st, set_visited ({[dep]} ∪ visited st) st);;
  sub_deps ← fetch_dependencies_for_package budget dep (Some "latest");
  match sub_deps with
  | [] => mret tt
  | _ :: _ =>
      modify (λ st, set_all_deps_graph
                      (<[dep := sub_deps]> (all_deps_graph st)) st)
  end.

(** How many requests of a list ask for the dependencies of [p]. *)
Definition dependency_queries (p : string) (rs : list request) : nat :=
  length (List.filter (is_dependency_query p) rs).

(** ** [fetch_dependencies] (lines 129-151) *)

(** Lines 133-137: the data of the test mode. *)
Definition test_deps : gmap string (list string) :=
  <["reqwest" := ["hyper"; "tokio"; "serde"]]>
    (<["tokio" := ["futures"; "mio"; "tokio-macros"]]>
       {["serde" := ["serde_derive"; "serde_core"]]}).

(** [test_mode] is [self.args.test_mode].  The value returned is what lines
    143-151 print: the direct dependencies of the package when it is a key of
    [deps], and [None] for the message that none were found. *)
Definition fetch_dependencies (test_mode : bool) (budget : nat)
  : M (option (list string)) :=
  (if test_mode then
     modify (set_deps test_deps);;
     modify (λ st, set_all_deps_graph (deps st) st)
   else build_dependency_graph budget);;
  st ← get_state;
  mret (deps st !! (package args)).

(** ** The shape of the graph *)

(** The graph after a build: the root is a key; a key maps to the direct
    dependencies if it is the root, or else is an expanded name with a
    non-empty list; no list holds an excluded name. *)
Definition graph_shape (direct plan : list string)
    (g : gmap string (list string)) : Prop :=
  package args ∈ dom g ∧
  ∀ k l, g !! k = Some l →
         ((k = package args ∧ l = direct) ∨ (k ∈ plan ∧ l ≠ [])) ∧
         Forall (λ x, excluded x = false) l.

(** * Properties *)

(** ** Substrings *)

Lemma append_cons (c : Ascii.ascii) (s t : string) :
  String.append (String c s) t = String c (String.append s t).
Proof. reflexivity. Qed.

Lemma prefix_split (a b : string) :
  String.prefix a b = true ↔ ∃ post, b = String.append a post.
Proof.
  revert b. induction a as [|c a IH]; intros b.
  - replace (String.prefix "" b) with true by (by destruct b).
    split; [intros _; by exists b | done].
  - destruct b as [|d b]; simpl.
    + split; [done | intros [post H]; discriminate].
    + destruct (Ascii.ascii_dec c d) as [->|Hne].
      * rewrite IH. split; intros [post H]; exists post;
          rewrite append_cons in *; congruence.
      * split; [done | intros [post H]; rewrite append_cons in H; congruence].
Qed.

Lemma contains_split (needle hay : string) :
  contains needle hay = true ↔
  ∃ pre post, hay = String.append pre (String.append needle post).
Proof.
  induction hay as [|c hay IH].
  - change (contains needle "") with (String.prefix needle "" || false).
    rewrite orb_false_r, prefix_split. split.
    + intros [post H]. by exists EmptyString, post.
    + intros (pre & post & H). destruct pre; [by exists post | discriminate].
  - change (contains needle (String c hay))
      with (String.prefix needle (String c hay) || contains needle hay).
    rewrite orb_true_iff, prefix_split, IH. split.
    + intros [[post H] | (pre & post & H)].
      * by exists EmptyString, post.
      * exists (String c pre), post. rewrite append_cons. by rewrite H.
    + intros (pre & post & H). destruct pre as [|d pre].
      * left. by exists post.
      * right. exists pre, post. rewrite append_cons in H. congruence.
Qed.

Lemma truthy_spec (s : string) : truthy s = true ↔ s ≠ "".
Proof.
  unfold truthy. rewrite negb_true_iff. split.
  - intros H ->. by rewrite String.eqb_refl in H.
  - intros H. by apply String.eqb_neq.
Qed.

(** ** The resolver *)

Lemma get_latest_version_resolves (p : string) (st : state) :
  ∃ r st',
    get_latest_version p st = (Returned r, st') ∧ resolves p st r st'.
Proof.
  unfold get_latest_version, mbind, M_bind, get_state.
  destruct (version_cache st !! p) as [v|] eqn:Hc.
  - exists v, st. split; [done | by constructor].
  - unfold try_except, requests_get, mbind, M_bind.
    destruct (reg (sent st) (GetCrate p)) as [|code body] eqn:Hr; simpl.
    + eexists _, _. split; [done|]. constructor; [done | by rewrite Hr].
    + destruct (code =? 200) eqn:Hcode.
      * destruct body as [[[v|] ds]|]; simpl.
        -- eexists _, _. split; [done|].
           apply resolves_store; [done | by rewrite Hr; simpl; rewrite Hcode].
        -- eexists _, _. split; [done|].
           constructor; [done | by rewrite Hr; simpl; rewrite Hcode].
        -- eexists _, _. split; [done|]. constructor; [done | by rewrite Hr].
      * eexists _, _. split; [done|].
        constructor; [done|]. rewrite Hr. simpl. rewrite Hcode.
        by destruct body.
Qed.

Lemma resolves_cached (p : string) (st st' : state) (r : option string) :
  resolves p st r st' →
  ∀ v, r = Some v → version_cache st' !! p = Some (Some v).
Proof.
  intros [v Hv | v Hn Hr | Hn Hr] w E; subst; simpl; [done | | done].
  by rewrite lookup_insert_eq.
Qed.

(** ** The fetcher *)

Lemma fetch_body_pieces self_call (p : string) (v : option string) :
  fetch_body self_call p v =
  if excluded p then mret []
  else
    resolved ← determine_version p v;
    match resolved with
    | None => mret []
    | Some actual_version =>
        if negb (truthy actual_version) then mret []
        else query self_call p actual_version
    end.
Proof. reflexivity. Qed.

Lemma crate_ids_map (names : list string) :
  crate_ids (map Some names) = Some names.
Proof. induction names as [|d names IH]; simpl; [done | by rewrite IH]. Qed.

Lemma collect_spec (entries : list (option string)) (acc : list string)
    (st : state) :
  collect entries acc st =
  match crate_ids entries with
  | Some names => (Returned (acc ++ kept names), st)
  | None => (Raised KeyError, st)
  end.
Proof.
  revert acc. induction entries as [|[d|] rest IH]; intros acc; simpl.
  - by rewrite app_nil_r.
  - unfold mbind, M_bind; simpl.
    destruct (excluded d) eqn:He; rewrite IH;
      destruct (crate_ids rest) as [names|]; try done.
    + unfold kept. simpl. fold (kept names). by rewrite He.
    + unfold kept. simpl. fold (kept names). rewrite He. simpl.
      by rewrite <- app_assoc.
  - done.
Qed.

Lemma query_connection_error self_call (p a : string) (st : state) :
  reg (sent st) (GetDependencies p a) = ConnectionError →
  query self_call p a st
  = (Returned [], record_request (GetDependencies p a) st).
Proof.
  intros Hr. unfold query, try_except, mbind, M_bind, requests_get.
  by rewrite Hr.
Qed.

Lemma query_200 self_call (p a : string) (st : state) (body : option json) :
  reg (sent st) (GetDependencies p a) = Http 200 body →
  query self_call p a st
  = (Returned (listing body), record_request (GetDependencies p a) st).
Proof.
  intros Hr. unfold query, try_except, mbind, M_bind, requests_get.
  rewrite Hr. simpl. destruct body as [data|]; simpl; [|done].
  rewrite collect_spec. by destruct (crate_ids _).
Qed.

Lemma query_other self_call (p a : string) (st : state) (code : Z)
    (body : option json) :
  reg (sent st) (GetDependencies p a) = Http code body →
  code ≠ 200 → code ≠ 404 →
  query self_call p a st
  = (Returned [], record_request (GetDependencies p a) st).
Proof.
  intros Hr H200 H404. unfold query, try_except, mbind, M_bind, requests_get.
  rewrite Hr. simpl.
  destruct (code =? 200) eqn:E1; [apply Z.eqb_eq in E1; done|].
  destruct (code =? 404) eqn:E2; [apply Z.eqb_eq in E2; done|]. done.
Qed.

(** The fallback of lines 89-96. *)
Lemma query_404 self_call (p a : string) (st st2 : state)
    (body : option json) (latest : option string) :
  reg (sent st) (GetDependencies p a) = Http 404 body →
  get_latest_version p (record_request (GetDependencies p a) st)
  = (Returned latest, st2) →
  query self_call p a st =
  match latest with
  | Some l =>
      if truthy l && negb (String.eqb l a)
      then try_except (self_call p (Some l)) (λ _, mret []) st2
      else (Returned [], st2)
  | None => (Returned [], st2)
  end.
Proof.
  intros Hr Hl. unfold query, try_except, mbind, M_bind, requests_get.
  rewrite Hr. simpl. rewrite Hl.
  destruct latest as [l|]; [|done].
  by destruct (truthy l && negb (String.eqb l a)).
Qed.

Lemma determine_version_determined (p : string) (v : option string)
    (st : state) :
  ∃ r st1,
    determine_version p v st = (Returned r, st1) ∧ determined p st v r st1.
Proof.
  unfold determine_version. case_bool_decide as Hv.
  - destruct (get_latest_version_resolves p st) as (r & st1 & Hg & Hres).
    exists r, st1. split; [done | by constructor].
  - destruct v as [x|]; [|by destruct Hv; left].
    exists (Some x), st. split; [done|].
    apply determined_given. intros ->. apply Hv. by right.
Qed.

(** A version that the cache already holds for [p] is resolved to itself. *)
Lemma determined_pinned (p l : string) (st st1 : state) (r : option string) :
  version_cache st !! p = Some (Some l) →
  determined p st (Some l) r st1 → r = Some l ∧ st1 = st.
Proof.
  intros Hc Hd. inversion Hd as [v r' st1' Hv Hres | x Hx]; subst; [|done].
  inversion Hres; subst; simplify_eq; done.
Qed.

Lemma resolves_hit_inv (p : string) (l : option string) (st st' : state)
    (r : option string) :
  version_cache st !! p = Some l →
  resolves p st r st' → r = l ∧ st' = st.
Proof. intros Hc Hres. inversion Hres; subst; simplify_eq; done. Qed.

Lemma no_raise_try_except {A : Type} (m : M A) (h : exn → M A) (st : state)
    (a : A) (st' : state) :
  m st = (Returned a, st') → try_except m h st = (Returned a, st').
Proof. intros H. unfold try_except. by rewrite H. Qed.

(** The body of the method follows the rules, provided the call it makes to
    itself does. *)
Lemma fetch_body_fetches self_call (p : string) (v : option string)
    (st : state) :
  (∀ a l st1 st2,
     determined p st v (Some a) st1 →
     resolves p (record_request (GetDependencies p a) st1) (Some l) st2 →
     l ≠ a →
     ∃ ds st3,
       self_call p (Some l) st2 = (Returned ds, st3) ∧
       fetches p (Some l) st2 ds st3) →
  ∃ ds st',
    fetch_body self_call p v st = (Returned ds, st') ∧
    fetches p v st ds st'.
Proof.
  intros Hself. rewrite fetch_body_pieces.
  destruct (excluded p) eqn:Hex.
  { exists [], st. split; [done | by constructor]. }
  unfold mbind at 1. unfold M_bind.
  destruct (determine_version_determined p v st) as (r & st1 & -> & Hd).
  destruct r as [a|]; [|exists [], st1; split; [done | by constructor]].
  destruct (truthy a) eqn:Ha; simpl.
  2:{ apply negb_false_iff, String.eqb_eq in Ha as ->.
      exists [], st1. split; [done | by apply fetches_empty_version]. }
  apply truthy_spec in Ha.
  destruct (reg (sent st1) (GetDependencies p a)) as [|code body] eqn:Hr.
  { eexists _, _. split; [by apply query_connection_error|].
    by eapply fetches_connection_error. }
  destruct (decide (code = 200)) as [->|H200].
  { eexists _, _. split; [by eapply query_200|]. by eapply fetches_listing. }
  destruct (decide (code = 404)) as [->|H404].
  2:{ eexists _, _. split; [by eapply query_other|].
      by eapply fetches_other_status. }
  destruct (get_latest_version_resolves p
              (record_request (GetDependencies p a) st1))
    as (latest & st2 & Hg & Hres).
  rewrite (query_404 _ _ _ _ _ _ _ Hr Hg).
  destruct latest as [l|].
  2:{ exists [], st2. split; [done|]. eapply fetches_no_fallback; eauto. }
  destruct (truthy l) eqn:Hl; simpl.
  2:{ apply negb_false_iff, String.eqb_eq in Hl as ->.
      exists [], st2. split; [done|]. eapply fetches_no_fallback; eauto. }
  apply truthy_spec in Hl.
  destruct (String.eqb l a) eqn:Hla; simpl.
  { apply String.eqb_eq in Hla as ->.
    exists [], st2. split; [done|]. eapply fetches_no_fallback; eauto. }
  apply String.eqb_neq in Hla.
  destruct (Hself a l st1 st2 Hd Hres Hla) as (ds & st3 & Hcall & Hf).
  exists ds, st3. split; [by apply no_raise_try_except|].
  eapply fetches_fallback; eauto.
Qed.

(** With the cache holding [l] for [p], a call for version [l] never calls
    the method again: whatever stands for the method itself is not used. *)
Lemma fetch_pinned self_call (p l : string) (st : state) :
  version_cache st !! p = Some (Some l) →
  ∃ ds st',
    fetch_body self_call p (Some l) st = (Returned ds, st') ∧
    fetches p (Some l) st ds st'.
Proof.
  intros Hc. apply fetch_body_fetches.
  intros a l' st1 st2 Hd Hres Hne.
  destruct (determined_pinned _ _ _ _ _ Hc Hd) as [[= <-] ->].
  destruct (resolves_hit_inv p (Some a) (record_request (GetDependencies p a) st)
              _ _ Hc Hres) as [[= <-] _].
  done.
Qed.

Lemma resolves_some_cached (p l : string) (st st' : state) :
  resolves p st (Some l) st' → version_cache st' !! p = Some (Some l).
Proof. intros H. by eapply resolves_cached. Qed.

(** A budget of two or more is never exhausted, and the method returns. *)
Theorem fetch_returns (n : nat) (p : string) (v : option string)
    (st : state) :
  ∃ ds st',
    fetch_dependencies_for_package (S (S n)) p v st
    = (Returned ds, st') ∧
    fetches p v st ds st'.
Proof.
  change (fetch_dependencies_for_package (S (S n)) p v st)
    with (fetch_body
            (fetch_dependencies_for_package (S n)) p v st).
  apply fetch_body_fetches. intros a l st1 st2 _ Hres _.
  apply fetch_pinned. by eapply resolves_some_cached.
Qed.

(** ** What a call leaves untouched *)

Lemma about_refl (p : string) (st : state) : about p st st.
Proof.
  repeat split. exists []. split; [by rewrite app_nil_r | constructor].
Qed.

Lemma about_trans (p : string) (st1 st2 st3 : state) :
  about p st1 st2 → about p st2 st3 → about p st1 st3.
Proof.
  intros (Hd1 & Hg1 & Hv1 & s1 & Hs1 & Hf1) (Hd2 & Hg2 & Hv2 & s2 & Hs2 & Hf2).
  repeat split; [congruence..|].
  exists (s1 ++ s2). split.
  - by rewrite Hs2, Hs1, app_assoc.
  - by apply Forall_app.
Qed.

Lemma about_record (p : string) (r : request) (st : state) :
  request_package r = p → about p st (record_request r st).
Proof.
  intros Hp. repeat split. exists [r]. split; [done|]. by repeat constructor.
Qed.

Lemma resolves_about (p : string) (st st' : state) (r : option string) :
  resolves p st r st' → about p st st'.
Proof.
  intros [v Hv | v Hn Hr | Hn Hr].
  - apply about_refl.
  - repeat split. exists [GetCrate p]. split; [done|]. by repeat constructor.
  - by apply about_record.
Qed.

Lemma determined_about (p : string) (st st1 : state) (v r : option string) :
  determined p st v r st1 → about p st st1.
Proof.
  intros [v' r' st1' Hv Hres | x Hx];
    [by eapply resolves_about | apply about_refl].
Qed.

Lemma fetches_about (p : string) (v : option string) (st st' : state)
    (ds : list string) :
  fetches p v st ds st' → about p st st'.
Proof.
  induction 1;
    repeat match goal with
           | H : determined _ _ _ _ _ |- _ => apply determined_about in H
           | H : resolves _ _ _ _ |- _ => apply resolves_about in H
           end;
    eauto using about_refl, about_trans, about_record.
  - eapply about_trans; [done|]. eapply about_trans; [|done].
    by apply about_record.
  - eapply about_trans; [done|]. eapply about_trans; [|done].
    eapply about_trans; [|done]. by apply about_record.
Qed.

(** ** The description is functional *)

Lemma resolves_functional (p : string) (st s1 s2 : state)
    (r1 r2 : option string) :
  resolves p st r1 s1 → resolves p st r2 s2 → r1 = r2 ∧ s1 = s2.
Proof. intros H1 H2. inversion H1; inversion H2; subst; simplify_eq; done. Qed.

Lemma determined_functional (p : string) (st s1 s2 : state)
    (v r1 r2 : option string) :
  determined p st v r1 s1 → determined p st v r2 s2 → r1 = r2 ∧ s1 = s2.
Proof.
  intros H1 H2. inversion H1 as [? ? ? Hv1 Hr1|]; subst;
    inversion H2 as [? ? ? Hv2 Hr2|]; subst.
  - by eapply resolves_functional.
  - destruct Hv1 as [|[=]]; done.
  - destruct Hv2 as [|[=]]; done.
  - done.
Qed.

Lemma fetches_functional (p : string) (v : option string) (st s1 s2 : state)
    (ds1 ds2 : list string) :
  fetches p v st ds1 s1 → fetches p v st ds2 s2 → ds1 = ds2 ∧ s1 = s2.
Proof.
  intros Hfirst. revert ds2 s2.
  induction Hfirst; intros ds2 s2 Hsecond; inversion Hsecond; subst;
    try congruence;
    repeat match goal with
           | Ha : determined p ?st ?v _ _, Hb : determined p ?st ?v _ _ |- _ =>
               apply (determined_functional _ _ _ _ _ _ _ Ha) in Hb;
               destruct Hb as [? ?]; simplify_eq
           end;
    try congruence;
    repeat match goal with
           | Ha : reg ?tr ?r = _, Hb : reg ?tr ?r = _ |- _ =>
               rewrite Ha in Hb; simplify_eq
           end;
    try done;
    repeat match goal with
           | Ha : resolves p ?st _ _, Hb : resolves p ?st _ _ |- _ =>
               apply (resolves_functional _ _ _ _ _ _ Ha) in Hb;
               destruct Hb as [? ?]; simplify_eq
           end;
    try done;
    try match goal with
        | Hor : _ = None ∨ _ = Some "" ∨ _ |- _ =>
            destruct Hor as [[=]|[[=]|[=]]]; congruence
        end;
    eauto.
Qed.

(** More budget than two changes nothing. *)
Lemma fetch_budget (n : nat) (p : string) (v : option string) (st : state) :
  fetch_dependencies_for_package (S (S n)) p v st
  = fetch_dependencies_for_package 2 p v st.
Proof.
  destruct (fetch_returns n p v st) as (ds1 & s1 & -> & H1).
  destruct (fetch_returns 0 p v st) as (ds2 & s2 & -> & H2).
  by destruct (fetches_functional _ _ _ _ _ _ _ H1 H2) as [-> ->].
Qed.

(** A call for the version the cache holds needs a budget of one only. *)
Lemma fetch_pinned_budget (n : nat) (p l : string) (st : state) :
  version_cache st !! p = Some (Some l) →
  fetch_dependencies_for_package (S n) p (Some l) st
  = fetch_dependencies_for_package 1 p (Some l) st.
Proof.
  intros Hc.
  destruct (fetch_pinned (fetch_dependencies_for_package n) p l st Hc)
    as (ds1 & s1 & E1 & H1).
  destruct (fetch_pinned (fetch_dependencies_for_package 0) p l st Hc)
    as (ds2 & s2 & E2 & H2).
  change (fetch_dependencies_for_package (S n) p (Some l) st)
    with (fetch_body (fetch_dependencies_for_package n) p (Some l) st).
  change (fetch_dependencies_for_package 1 p (Some l) st)
    with (fetch_body (fetch_dependencies_for_package 0) p (Some l) st).
  rewrite E1, E2.
  by destruct (fetches_functional _ _ _ _ _ _ _ H1 H2) as [-> ->].
Qed.

(** ** Composing computations *)

Section Keeps.

Variable R : state → state → Prop.
Hypothesis R_refl : ∀ st, R st st.
Hypothesis R_trans : ∀ s1 s2 s3, R s1 s2 → R s2 s3 → R s1 s3.

Lemma keeps_ret {A : Type} (a : A) : keeps R (mret a).
Proof. intros st o st' [= <- <-]. apply R_refl. Qed.

Lemma keeps_bind {A B : Type} (m : M A) (f : A → M B) :
  keeps R m → (∀ a, keeps R (f a)) → keeps R (m ≫= f).
Proof.
  intros Hm Hf st o st'. unfold mbind, M_bind.
  destruct (m st) as [[a| e |] s1] eqn:E; intros H.
  - eapply R_trans; [by eapply Hm | by eapply Hf].
  - injection H as <- <-. by eapply Hm.
  - injection H as <- <-. by eapply Hm.
Qed.

Lemma keeps_modify (f : state → state) :
  (∀ st, R st (f st)) → keeps R (modify f).
Proof. intros Hf st o st' [= <- <-]. apply Hf. Qed.

Lemma keeps_get_state : keeps R get_state.
Proof. intros st o st' [= <- <-]. apply R_refl. Qed.

Lemma keeps_for_each {A : Type} (xs : list A) (body : A → M unit) :
  (∀ x, keeps R (body x)) → keeps R (for_each xs body).
Proof.
  intros Hb. induction xs as [|x xs IH]; simpl.
  - apply keeps_ret.
  - apply keeps_bind; [apply Hb | intros _; apply IH].
Qed.

End Keeps.

Lemma returns_ret {A : Type} (a : A) : returns (mret a).
Proof. intros st. by exists a, st. Qed.

Lemma returns_bind {A B : Type} (m : M A) (f : A → M B) :
  returns m → (∀ a, returns (f a)) → returns (m ≫= f).
Proof.
  intros Hm Hf st. unfold mbind, M_bind.
  destruct (Hm st) as (a & s1 & ->). apply Hf.
Qed.

Lemma returns_modify (f : state → state) : returns (modify f).
Proof. intros st. by exists tt, (f st). Qed.

Lemma returns_for_each {A : Type} (xs : list A) (body : A → M unit) :
  (∀ x, returns (body x)) → returns (for_each xs body).
Proof.
  intros Hb. induction xs as [|x xs IH]; simpl.
  - apply returns_ret.
  - apply returns_bind; [apply Hb | intros _; apply IH].
Qed.

Lemma fetch_dependencies_for_package_returns (n : nat) (p : string)
    (v : option string) :
  returns (fetch_dependencies_for_package (S (S n)) p v).
Proof.
  intros st. destruct (fetch_returns n p v st) as (ds & st' & H & _).
  by exists ds, st'.
Qed.

Lemma expand_returns (n : nat) (dep : string) : returns (expand (S (S n)) dep).
Proof.
  intros st. unfold expand, mbind at 1, M_bind, get_state.
  case_bool_decide; [by exists tt, st|].
  apply returns_bind; [apply returns_modify|]. intros _.
  apply returns_bind; [apply fetch_dependencies_for_package_returns|].
  intros [|d ds]; [apply returns_ret | apply returns_modify].
Qed.

Lemma build_dependency_graph_returns (n : nat) :
  returns (build_dependency_graph (S (S n))).
Proof.
  apply returns_bind; [apply fetch_dependencies_for_package_returns|].
  intros [|d ds].
  - apply returns_bind; [apply returns_modify | intros _; apply returns_modify].
  - apply returns_bind; [apply returns_modify|]. intros _.
    apply returns_bind; [apply returns_modify|]. intros _.
    apply returns_for_each. intros x. apply expand_returns.
Qed.

(** ** The cache along a run *)

Lemma cache_evolves_refl (st : state) : cache_evolves st st.
Proof. split; [done | by left]. Qed.

Lemma cache_evolves_trans (s1 s2 s3 : state) :
  cache_evolves s1 s2 → cache_evolves s2 s3 → cache_evolves s1 s3.
Proof.
  intros [Hs1 Hn1] [Hs2 Hn2]. split; [by etrans|].
  intros q v Hq. destruct (Hn2 q v Hq) as [H2|?]; [|by right]. by apply Hn1.
Qed.

Lemma cache_evolves_same (st st' : state) :
  version_cache st' = version_cache st → cache_evolves st st'.
Proof. intros H. unfold cache_evolves. rewrite H. split; [done | by left]. Qed.

Lemma resolves_cache_evolves (p : string) (st st' : state)
    (r : option string) :
  resolves p st r st' → cache_evolves st st'.
Proof.
  intros [v Hv | v Hn Hr | Hn Hr]; [apply cache_evolves_refl | |
    by apply cache_evolves_same].
  split; simpl; [by apply insert_subseteq|].
  intros q w. rewrite lookup_insert. case_decide as Hq.
  - intros [= ->]. subst q. right. by eexists.
  - by left.
Qed.

Lemma determined_cache_evolves (p : string) (st st1 : state)
    (v r : option string) :
  determined p st v r st1 → cache_evolves st st1.
Proof.
  intros [v' r' st1' Hv Hres | x Hx];
    [by eapply resolves_cache_evolves | apply cache_evolves_refl].
Qed.

Lemma fetches_cache_evolves (p : string) (v : option string)
    (st st' : state) (ds : list string) :
  fetches p v st ds st' → cache_evolves st st'.
Proof.
  induction 1;
    repeat match goal with
           | H : determined _ _ _ _ _ |- _ =>
               apply determined_cache_evolves in H
           | H : resolves _ _ _ _ |- _ => apply resolves_cache_evolves in H
           end;
    try done; try apply cache_evolves_refl.
  - eapply cache_evolves_trans; [eassumption|].
    eapply cache_evolves_trans; [|eassumption]. by apply cache_evolves_same.
  - eapply cache_evolves_trans; [eassumption|].
    eapply cache_evolves_trans; [by apply cache_evolves_same|].
    eapply cache_evolves_trans; eassumption.
Qed.

Lemma get_latest_version_keeps_cache (p : string) :
  keeps cache_evolves (get_latest_version p).
Proof.
  intros st o st' H.
  destruct (get_latest_version_resolves p st) as (r & s1 & E & Hres).
  rewrite E in H. injection H as <- <-. by eapply resolves_cache_evolves.
Qed.

Lemma fetch_keeps_cache (n : nat) (p : string) (v : option string) :
  keeps cache_evolves (fetch_dependencies_for_package (S (S n)) p v).
Proof.
  intros st o st' H.
  destruct (fetch_returns n p v st) as (ds & s1 & E & Hf).
  rewrite E in H. injection H as <- <-. by eapply fetches_cache_evolves.
Qed.

Lemma expand_keeps_cache (n : nat) (dep : string) :
  keeps cache_evolves (expand (S (S n)) dep).
Proof.
  pose proof cache_evolves_refl as Hr. pose proof cache_evolves_trans as Ht.
  apply (keeps_bind _ Ht); [apply (keeps_get_state _ Hr)|].
  intros s. case_bool_decide; [apply (keeps_ret _ Hr)|].
  apply (keeps_bind _ Ht); [by apply keeps_modify|]. intros _.
  apply (keeps_bind _ Ht); [apply fetch_keeps_cache|].
  intros [|d ds]; [apply (keeps_ret _ Hr) | by apply keeps_modify].
Qed.

Lemma build_keeps_cache (n : nat) :
  keeps cache_evolves (build_dependency_graph (S (S n))).
Proof.
  pose proof cache_evolves_refl as Hr. pose proof cache_evolves_trans as Ht.
  apply (keeps_bind _ Ht); [apply fetch_keeps_cache|].
  intros [|d ds].
  - apply (keeps_bind _ Ht); [by apply keeps_modify|]. intros _.
    by apply keeps_modify.
  - apply (keeps_bind _ Ht); [by apply keeps_modify|]. intros _.
    apply (keeps_bind _ Ht); [by apply keeps_modify|]. intros _.
    apply (keeps_for_each _ Hr Ht). intros x. apply expand_keeps_cache.
Qed.

Lemma perform_cache_evolves (n : nat) (c : call) (st : state) :
  cache_evolves st (perform (S (S n)) c st).
Proof.
  destruct c as [p | p v |]; simpl.
  - eapply get_latest_version_keeps_cache. apply surjective_pairing.
  - eapply fetch_keeps_cache. apply surjective_pairing.
  - eapply build_keeps_cache. apply surjective_pairing.
Qed.

Lemma perform_all_cache_evolves (n : nat) (cs : list call) (st : state) :
  cache_evolves st (perform_all (S (S n)) cs st).
Proof.
  revert st. induction cs as [|c cs IH]; intros st; simpl.
  - apply cache_evolves_refl.
  - eapply cache_evolves_trans; [apply perform_cache_evolves | apply IH].
Qed.

(** ** Failing replies *)

(** A non-empty result is the listing of a 200 reply to the last request. *)
Lemma fetches_nonempty (p : string) (v : option string) (st st' : state)
    (ds : list string) :
  fetches p v st ds st' → ds ≠ [] →
  ∃ tr a body,
    sent st' = tr ++ [GetDependencies p a] ∧
    reg tr (GetDependencies p a) = Http 200 body ∧
    ds = listing body.
Proof.
  induction 1; intros Hne; try done.
  - by eexists _, _, _.
  - by apply IHfetches.
Qed.

Lemma listing_failed (code : Z) (body : option json) :
  failed (Http code body) → code = 200 → listing body = [].
Proof.
  intros [Hc | Hb] E; [done|].
  destruct body as [data|]; simpl; [by rewrite Hb | done].
Qed.

(** ** The expansion loop *)

Lemma expansion_plan_elem (seen : gset string) (entries : list string)
    (d : string) :
  d ∈ expansion_plan seen entries ↔ d ∈ entries ∧ d ∉ seen.
Proof.
  revert seen. induction entries as [|e rest IH]; intros seen; simpl.
  - set_solver.
  - case_bool_decide as He.
    + rewrite IH, elem_of_cons. split; [tauto|].
      intros [[-> | Hr] Hs]; tauto.
    + rewrite !elem_of_cons, IH, not_elem_of_union, not_elem_of_singleton.
      split.
      * intros [-> | (Hr & Hne & Hs)]; tauto.
      * intros [[-> | Hr] Hs]; [tauto|].
        destruct (decide (d = e)); tauto.
Qed.

Lemma expansion_plan_NoDup (seen : gset string) (entries : list string) :
  NoDup (expansion_plan seen entries).
Proof.
  revert seen. induction entries as [|e rest IH]; intros seen; simpl.
  - constructor.
  - case_bool_decide as He; [apply IH|].
    constructor; [|apply IH]. rewrite expansion_plan_elem. set_solver.
Qed.

Lemma expansion_plan_length (seen : gset string) (entries : list string) :
  (length (expansion_plan seen entries) ≤ length entries)%nat.
Proof.
  revert seen. induction entries as [|e rest IH]; intros seen; simpl; [lia|].
  case_bool_decide; simpl;
    [specialize (IH seen) | specialize (IH ({[e]} ∪ seen))]; lia.
Qed.

Lemma expansion_plan_set (seen : gset string) (entries : list string) :
  seen ∪ list_to_set (expansion_plan seen entries)
  = seen ∪ list_to_set entries.
Proof.
  apply set_eq. intros d.
  rewrite !elem_of_union, !elem_of_list_to_set, expansion_plan_elem.
  destruct (decide (d ∈ seen)); naive_solver.
Qed.

Lemma dependency_queries_app (p : string) (l1 l2 : list request) :
  dependency_queries p (l1 ++ l2)
  = (dependency_queries p l1 + dependency_queries p l2)%nat.
Proof.
  unfold dependency_queries. by rewrite List.filter_app, length_app.
Qed.

Lemma dependency_queries_other (p : string) (rs : list request) :
  Forall (λ r, request_package r ≠ p) rs → dependency_queries p rs = 0%nat.
Proof.
  unfold dependency_queries. induction 1 as [|r rs Hr _ IH]; simpl; [done|].
  destruct r as [q | q a]; simpl; [done|].
  destruct (String.eqb p q) eqn:E; [|done].
  apply String.eqb_eq in E. simpl in Hr. congruence.
Qed.

Lemma resolves_sent (p : string) (st st' : state) (r : option string) :
  resolves p st r st' →
  sent st' = sent st ∨ sent st' = sent st ++ [GetCrate p].
Proof. intros [v Hv | v Hn Hr | Hn Hr]; simpl; auto. Qed.

(** A call for "latest" sends at most a metadata request and then at most
    one dependency request. *)
Lemma fetches_latest_sent (p : string) (st st' : state) (ds : list string) :
  fetches p (Some "latest") st ds st' →
  ∃ suffix,
    sent st' = sent st ++ suffix ∧
    Forall (λ r, request_package r = p) suffix ∧
    (dependency_queries p suffix ≤ 1)%nat.
Proof.
  assert (∀ r st1, determined p st (Some "latest") r st1 →
                    resolves p st r st1) as Hdet.
  { intros r st1 Hd. inversion Hd; subst; done. }
  assert (∀ st1 a,
            sent st1 = sent st ∨ sent st1 = sent st ++ [GetCrate p] →
            ∃ suffix,
              sent st1 ++ [GetDependencies p a] = sent st ++ suffix ∧
              Forall (λ r, request_package r = p) suffix ∧
              (dependency_queries p suffix ≤ 1)%nat) as Hquery.
  { intros st1 a [-> | ->].
    - exists [GetDependencies p a]. split; [done|].
      split; [by repeat constructor|].
      unfold dependency_queries. simpl. destruct (String.eqb p p); simpl; lia.
    - exists [GetCrate p; GetDependencies p a].
      split; [by rewrite <- app_assoc|].
      split; [by repeat constructor|].
      unfold dependency_queries. simpl. destruct (String.eqb p p); simpl; lia.
  }
  assert (∀ st1,
            sent st1 = sent st ∨ sent st1 = sent st ++ [GetCrate p] →
            ∃ suffix,
              sent st1 = sent st ++ suffix ∧
              Forall (λ r, request_package r = p) suffix ∧
              (dependency_queries p suffix ≤ 1)%nat) as Honly.
  { intros st1 [-> | ->].
    - exists []. rewrite app_nil_r. split; [done|].
      split; [constructor | unfold dependency_queries; simpl; lia].
    - exists [GetCrate p]. split; [done|].
      split; [by repeat constructor | unfold dependency_queries; simpl; lia]. }
  intros Hf.
  inversion Hf as
    [ | ? ? st1 Hex Hd | ? ? st1 Hex Hd
      | ? ? a st1 Hex Hd Ha Hr | ? ? a st1 body Hex Hd Ha Hr
      | ? ? a st1 code body Hex Hd Ha Hr
      | ? ? a st1 body latest st2 Hex Hd Ha Hr Hres
      | ? ? a st1 body l st2 ? st3 Hex Hd Ha Hr Hres Hl Hla ];
    subst.
  - apply Honly. by left.
  - apply Honly. eapply resolves_sent. by apply Hdet.
  - apply Honly. eapply resolves_sent. by apply Hdet.
  - apply Hquery. eapply resolves_sent. by apply Hdet.
  - apply Hquery. eapply resolves_sent. by apply Hdet.
  - apply Hquery. eapply resolves_sent. by apply Hdet.
  - apply Hdet in Hd.
    pose proof (resolves_some_cached _ _ _ _ Hd) as Hc.
    destruct (resolves_hit_inv p (Some a) (record_request (GetDependencies p a) st1)
                _ _ Hc Hres) as [_ ->].
    apply Hquery. by eapply resolves_sent.
  - apply Hdet in Hd.
    pose proof (resolves_some_cached _ _ _ _ Hd) as Hc.
    destruct (resolves_hit_inv p (Some a) (record_request (GetDependencies p a) st1)
                _ _ Hc Hres) as [[= ->] _].
    done.
Qed.

Lemma expand_seen (n : nat) (d : string) (st : state) :
  d ∈ visited st → expand n d st = (Returned tt, st).
Proof.
  intros Hd. unfold expand, mbind, M_bind, get_state.
  by rewrite bool_decide_eq_true_2.
Qed.

Lemma expand_fresh (n : nat) (d : string) (st : state) :
  d ∉ visited st → expand n d st = expand_one n d st.
Proof.
  intros Hd. unfold expand, mbind at 1, M_bind, get_state.
  by rewrite bool_decide_eq_false_2.
Qed.

(** What expanding one name does. *)
Lemma expand_one_spec (n : nat) (d : string) (st : state) :
  ∃ st',
    expand_one (S (S n)) d st = (Returned tt, st') ∧
    visited st' = {[d]} ∪ visited st ∧
    deps st' = deps st ∧
    dom (all_deps_graph st') ⊆ {[d]} ∪ dom (all_deps_graph st) ∧
    ∃ suffix,
      sent st' = sent st ++ suffix ∧
      Forall (λ r, request_package r = d) suffix ∧
      (dependency_queries d suffix ≤ 1)%nat.
Proof.
  unfold expand_one, mbind, M_bind, modify.
  destruct (fetch_returns n d (Some "latest")
              (set_visited ({[d]} ∪ visited st) st))
    as (sub & s1 & -> & Hf).
  destruct (fetches_about _ _ _ _ _ Hf) as (Hdeps & Hg & Hv & _).
  destruct (fetches_latest_sent _ _ _ _ Hf) as (suffix & Hs & Hall & Hq).
  destruct sub as [|x sub]; eexists; (split; [reflexivity|]); simpl in *.
  - repeat split; [done | done | rewrite Hg; set_solver | by exists suffix].
  - repeat split; [done | done | | by exists suffix].
    rewrite dom_insert_L, Hg. set_solver.
Qed.

Lemma for_each_plan (n : nat) (plan : list string) (st : state) :
  NoDup plan →
  ∃ st',
    for_each plan (expand_one (S (S n))) st = (Returned tt, st') ∧
    visited st' = visited st ∪ list_to_set plan ∧
    deps st' = deps st ∧
    dom (all_deps_graph st') ⊆ dom (all_deps_graph st) ∪ list_to_set plan ∧
    ∃ suffix,
      sent st' = sent st ++ suffix ∧
      Forall (λ r, request_package r ∈ plan) suffix ∧
      ∀ d, (dependency_queries d suffix ≤ 1)%nat.
Proof.
  intros Hnd. revert st.
  induction Hnd as [|d plan Hd Hnd IH]; intros st.
  - exists st. split; [done|]. simpl.
    repeat split; [set_solver | set_solver |].
    exists []. rewrite app_nil_r. split; [done|].
    split; [constructor | intros; unfold dependency_queries; simpl; lia].
  - destruct (expand_one_spec n d st)
      as (s1 & E1 & Hv1 & Hd1 & Hg1 & sfx1 & Hs1 & Ha1 & Hq1).
    destruct (IH s1) as (s2 & E2 & Hv2 & Hd2 & Hg2 & sfx2 & Hs2 & Ha2 & Hq2).
    exists s2. split.
    { simpl. unfold mbind, M_bind. by rewrite E1. }
    split; [rewrite Hv2, Hv1; set_solver|].
    split; [congruence|].
    split; [set_solver|].
    exists (sfx1 ++ sfx2). split; [by rewrite Hs2, Hs1, app_assoc|].
    split.
    + apply Forall_app. split.
      * eapply Forall_impl; [exact Ha1|]. intros r ->. set_solver.
      * eapply Forall_impl; [exact Ha2|]. intros r Hr. set_solver.
    + intros e. rewrite dependency_queries_app.
      destruct (decide (e = d)) as [->|Hne].
      * rewrite (dependency_queries_other d sfx2); [specialize (Hq2 d); lia|].
        eapply Forall_impl; [exact Ha2|]. intros r Hr E.
        apply Hd. by rewrite <- E.
      * rewrite (dependency_queries_other e sfx1); [specialize (Hq2 e); lia|].
        eapply Forall_impl; [exact Ha1|]. intros r E1' E2'. congruence.
Qed.

(** The loop of lines 120-125 expands the names of the plan, one after the
    other, and nothing else. *)
Lemma for_each_expand_plan (n : nat) (entries : list string) (st : state) :
  for_each entries (expand (S (S n))) st
  = for_each (expansion_plan (visited st) entries) (expand_one (S (S n))) st.
Proof.
  revert st. induction entries as [|d rest IH]; intros st; simpl; [done|].
  case_bool_decide as Hd.
  - unfold mbind, M_bind. rewrite (expand_seen _ _ _ Hd). apply IH.
  - simpl. unfold mbind, M_bind.
    rewrite (expand_fresh _ _ _ Hd).
    destruct (expand_one_spec n d st) as (s1 & -> & Hv1 & _).
    rewrite IH. by rewrite Hv1.
Qed.

(** * The claims *)

(** C1.  Let [direct] be the list that the fetch of the root package
    returns.  [build_dependency_graph] expands exactly the names of
    [expansion_plan (visited st) (take 3 direct)], one after the other: these
    are at most three names, each among the first three entries of [direct],
    none visited before, none twice.  Accordingly the visited set grows by
    the first three entries only, the graph gets no key besides the root and
    expanded names, every request sent after the root fetch asks about an
    expanded name, and for no name is the dependency endpoint asked more than
    once. *)
Theorem C1_expansion_is_bounded_and_deduplicated (n : nat) (st : state) :
  ∃ direct st1 st2,
    fetch_dependencies_for_package (S (S n)) (package args)
      (Some (version args)) st
    = (Returned direct, st1) ∧
    build_dependency_graph (S (S n)) st = (Returned tt, st2) ∧
    let plan := expansion_plan (visited st) (take 3 direct) in
    build_dependency_graph (S (S n)) st
    = for_each plan (expand_one (S (S n)))
        (set_all_deps_graph {[package args := direct]}
           (set_deps {[package args := direct]} st1)) ∧
    (∀ d, d ∈ plan ↔ d ∈ take 3 direct ∧ d ∉ visited st) ∧
    NoDup plan ∧
    (length plan ≤ 3)%nat ∧
    visited st2 = visited st ∪ list_to_set (take 3 direct) ∧
    dom (all_deps_graph st2) ⊆ {[package args]} ∪ list_to_set plan ∧
    ∃ suffix,
      sent st2 = sent st1 ++ suffix ∧
      Forall (λ r, request_package r ∈ plan) suffix ∧
      ∀ d, (dependency_queries d suffix ≤ 1)%nat.
Proof.
  destruct (fetch_returns n (package args) (Some (version args)) st)
    as (direct & st1 & Hfetch & Hf).
  destruct (fetches_about _ _ _ _ _ Hf) as (_ & _ & Hv & _).
  set (entered := set_all_deps_graph {[package args := direct]}
                    (set_deps {[package args := direct]} st1)).
  assert (build_dependency_graph (S (S n)) st
          = for_each (expansion_plan (visited st) (take 3 direct))
              (expand_one (S (S n))) entered) as Hbuild.
  { unfold build_dependency_graph, mbind at 1, M_bind. rewrite Hfetch.
    destruct direct as [|d direct]; [done|].
    unfold mbind, M_bind, modify. fold entered.
    rewrite for_each_expand_plan. subst entered. simpl. by rewrite Hv. }
  destruct (for_each_plan n (expansion_plan (visited st) (take 3 direct))
              entered (expansion_plan_NoDup _ _))
    as (st2 & E & Hv2 & _ & Hg2 & suffix & Hs2 & Ha2 & Hq2).
  exists direct, st1, st2. split; [done|].
  split; [by rewrite Hbuild|].
  split; [done|].
  split; [apply expansion_plan_elem|].
  split; [apply expansion_plan_NoDup|].
  split.
  { etrans; [apply expansion_plan_length|]. rewrite length_take. lia. }
  split.
  { rewrite Hv2. subst entered. simpl. rewrite Hv.
    apply expansion_plan_set. }
  split.
  { subst entered. simpl in Hg2. by rewrite dom_singleton_L in Hg2. }
  by exists suffix.
Qed.

(** C2.  When the dependency endpoint answers 404 for the version asked, the
    method calls [get_latest_version]; if that gives a non-empty version
    other than the one just tried, the result is that of the method called
    with this version, and that call needs no further call of the method;
    otherwise the result is the empty list. *)
Theorem C2_fallback_on_404 (n : nat) (p : string) (v : option string)
    (st st1 : state) (a : string) (body : option json) :
  excluded p = false →
  determine_version p v st = (Returned (Some a), st1) →
  a ≠ "" →
  reg (sent st1) (GetDependencies p a) = Http 404 body →
  ∃ latest st2,
    get_latest_version p (record_request (GetDependencies p a) st1)
    = (Returned latest, st2) ∧
    match latest with
    | Some l =>
        if truthy l && negb (String.eqb l a) then
          fetch_dependencies_for_package (S (S n)) p v st
          = fetch_dependencies_for_package (S (S n)) p (Some l) st2 ∧
          fetch_dependencies_for_package (S (S n)) p (Some l) st2
          = fetch_dependencies_for_package 1 p (Some l) st2
        else
          fetch_dependencies_for_package (S (S n)) p v st = (Returned [], st2)
    | None =>
        fetch_dependencies_for_package (S (S n)) p v st = (Returned [], st2)
    end.
Proof.
  intros Hex Hd Ha Hr.
  destruct (get_latest_version_resolves p
              (record_request (GetDependencies p a) st1))
    as (latest & st2 & Hg & Hres).
  exists latest, st2. split; [done|].
  assert (fetch_dependencies_for_package (S (S n)) p v st
          = query (fetch_dependencies_for_package (S n)) p a st1) as ->.
  { change (fetch_dependencies_for_package (S (S n)) p v st)
      with (fetch_body (fetch_dependencies_for_package (S n)) p v st).
    rewrite fetch_body_pieces, Hex. unfold mbind at 1. unfold M_bind.
    rewrite Hd. apply truthy_spec in Ha. by rewrite Ha. }
  rewrite (query_404 _ _ _ _ _ _ _ Hr Hg).
  destruct latest as [l|]; [|done].
  destruct (truthy l && negb (String.eqb l a)); [|done].
  pose proof (resolves_some_cached _ _ _ _ Hres) as Hc.
  rewrite (fetch_pinned_budget (S n) p l st2 Hc).
  split; [|done].
  destruct (fetch_pinned (fetch_dependencies_for_package 0) p l st2 Hc)
    as (ds & st3 & E & _).
  change (fetch_body (fetch_dependencies_for_package 0) p (Some l) st2)
    with (fetch_dependencies_for_package 1 p (Some l) st2) in E.
  unfold try_except.
  rewrite (fetch_pinned_budget n p l st2 Hc). by rewrite E.
Qed.

(** C3 (amended).  Once the cache holds a value for a package, every later
    call of [get_latest_version] for it in the same run, after any calls of
    the three methods, returns that value and leaves the state, and so the
    record of requests, unchanged.  Hence, when a first call returns a
    version, it has sent at most one request and any later call sends none.
    When the first call is answered with no usable version (no connection, a
    status other than 200, an unreadable body or no newest-version field),
    nothing is stored and a second call sends a second request. *)
Theorem C3_cached_version_is_reused (n : nat) (p : string) (st : state) :
  (∀ v cs,
     version_cache st !! p = Some v →
     let st' := perform_all (S (S n)) cs st in
     get_latest_version p st' = (Returned v, st')) ∧
  (∀ v st1 cs,
     get_latest_version p st = (Returned (Some v), st1) →
     (length (sent st1) ≤ S (length (sent st)))%nat ∧
     let st2 := perform_all (S (S n)) cs st1 in
     get_latest_version p st2 = (Returned (Some v), st2)) ∧
  (version_cache st !! p = None →
   reply_version (reg (sent st) (GetCrate p)) = None →
   ∃ st1 r2 st2,
     get_latest_version p st = (Returned None, st1) ∧
     version_cache st1 = version_cache st ∧
     get_latest_version p st1 = (Returned r2, st2) ∧
     sent st2 = sent st ++ [GetCrate p; GetCrate p]).
Proof.
  assert (∀ v cs s,
            version_cache s !! p = Some v →
            let s' := perform_all (S (S n)) cs s in
            get_latest_version p s' = (Returned v, s')) as Hreuse.
  { intros v cs s Hc s'.
    destruct (perform_all_cache_evolves n cs s) as [Hsub _].
    pose proof (lookup_weaken _ _ _ _ Hc Hsub) as Hc'. fold s' in Hc'.
    unfold get_latest_version, mbind, M_bind, get_state. by rewrite Hc'. }
  split; [intros v cs; apply Hreuse|]. split.
  - intros v st1 cs E.
    destruct (get_latest_version_resolves p st) as (r & s1 & E' & Hres).
    rewrite E in E'. injection E' as <- <-.
    split.
    + destruct (resolves_sent _ _ _ _ Hres) as [-> | ->]; [lia|].
      rewrite length_app. simpl. lia.
    + apply Hreuse. by eapply resolves_some_cached.
  - intros Hn Hr.
    destruct (get_latest_version_resolves p st) as (r & s1 & E & Hres).
    destruct (get_latest_version_resolves p s1) as (r2 & s2 & E2 & Hres2).
    inversion Hres as [v Hv | v Hn' Hr' | Hn' Hr']; subst;
      [congruence | congruence |].
    exists (record_request (GetCrate p) st), r2, s2.
    split; [done|]. split; [done|]. split; [done|].
    inversion Hres2 as [v Hv | v Hn2 Hr2 | Hn2 Hr2]; subst; simpl in *;
      [congruence | by rewrite <- app_assoc | by rewrite <- app_assoc].
Qed.

(** C4 (amended).  For a package that the filter does not exclude: when the
    requested version is absent ([None]) or "latest", the method first calls
    [get_latest_version]; when that yields [None] the method returns the
    empty list having sent at most the resolver's metadata request (exactly
    that request when the package was not in the cache), never a dependency
    request.  An empty version string is not resolved: the method returns the
    empty list in the state it was called in. *)
Theorem C4_absent_or_latest_is_resolved_first (n : nat) (p : string)
    (v : option string) (st : state) :
  excluded p = false →
  (v = None ∨ v = Some "latest" →
   resolves_first n p v st ∧
   ∀ st1, get_latest_version p st = (Returned None, st1) →
          fetch_dependencies_for_package (S n) p v st = (Returned [], st1) ∧
          (sent st1 = sent st ∨ sent st1 = sent st ++ [GetCrate p]) ∧
          (version_cache st !! p = None →
           sent st1 = sent st ++ [GetCrate p])) ∧
  (v = Some "" →
   fetch_dependencies_for_package (S n) p v st = (Returned [], st)).
Proof.
  intros Hex. split.
  - intros Hv.
    assert (resolves_first n p v st) as Hfirst.
    { unfold resolves_first. simpl. rewrite fetch_body_pieces, Hex.
      unfold determine_version. by rewrite bool_decide_eq_true_2. }
    split; [done|]. intros st1 Hg. split.
    + rewrite Hfirst. unfold mbind, M_bind. by rewrite Hg.
    + destruct (get_latest_version_resolves p st) as (r & st1' & Hg' & Hres).
      rewrite Hg in Hg'. injection Hg' as <- <-.
      split; [by eapply resolves_sent|].
      intros Hn. inversion Hres; subst; simpl; [congruence | done | done].
  - intros ->. simpl. by rewrite fetch_body_pieces, Hex.
Qed.

(** C5.  When the fetch of the root package's direct dependencies returns
    the empty list, [build_dependency_graph] leaves exactly the graph
    [{package: []}], in [all_deps_graph] and in [deps], and does nothing
    else. *)
Theorem C5_no_dependencies_single_entry (n : nat) (st st1 : state) :
  fetch_dependencies_for_package n (package args) (Some (version args)) st
  = (Returned [], st1) →
  ∃ st2,
    build_dependency_graph n st = (Returned tt, st2) ∧
    all_deps_graph st2 = {[package args := []]} ∧
    dom (all_deps_graph st2) = {[package args]} ∧
    deps st2 = {[package args := []]} ∧
    visited st2 = visited st1 ∧
    version_cache st2 = version_cache st1 ∧
    sent st2 = sent st1.
Proof.
  intros Hf. eexists. split.
  - unfold build_dependency_graph, mbind at 1, M_bind. rewrite Hf. reflexivity.
  - simpl. repeat split. by rewrite dom_singleton_L.
Qed.

(** C6.  When the configured filter is non-empty and occurs in the package
    name, [fetch_dependencies_for_package] returns the empty list at once,
    for every requested version: the state, and with it the record of
    requests sent, is unchanged, so no network call was made. *)
Theorem C6_filtered_package_is_skipped (n : nat) (p : string)
    (v : option string) (st : state) :
  filter args ≠ "" →
  contains (filter args) p = true →
  fetch_dependencies_for_package (S n) p v st = (Returned [], st).
Proof.
  intros Hf Hc. simpl. rewrite fetch_body_pieces.
  unfold excluded. apply truthy_spec in Hf. by rewrite Hf, Hc.
Qed.

(** C7 (amended).  On a 200 reply of the dependency endpoint the method
    sends that one request and returns: the registry's names in the
    registry's order, without those that contain the non-empty filter, when
    the body can be read and every entry of its list carries a [crate_id];
    the empty list when the body cannot be read or an entry has no
    [crate_id].  A body without the list counts as an empty list. *)
Theorem C7_listing_is_filtered_in_order (n : nat) (p : string)
    (v : option string) (st st1 : state) (a : string) (body : option json) :
  excluded p = false →
  determine_version p v st = (Returned (Some a), st1) →
  a ≠ "" →
  reg (sent st1) (GetDependencies p a) = Http 200 body →
  fetch_dependencies_for_package (S n) p v st
  = (Returned
       match body with
       | Some data =>
           match crate_ids (default [] (dependencies data)) with
           | Some names =>
               List.filter
                 (λ d, negb (truthy (filter args) && contains (filter args) d))
                 names
           | None => []
           end
       | None => []
       end,
     record_request (GetDependencies p a) st1) ∧
  ∀ latest names,
    body = Some {| newest_version := latest;
                   dependencies := Some (map Some names) |} →
    fetch_dependencies_for_package (S n) p v st
    = (Returned
         (List.filter
            (λ d, negb (truthy (filter args) && contains (filter args) d))
            names),
       record_request (GetDependencies p a) st1).
Proof.
  intros Hex Hd Ha Hr.
  assert (fetch_dependencies_for_package (S n) p v st
          = (Returned (listing body),
             record_request (GetDependencies p a) st1)) as E.
  { simpl. rewrite fetch_body_pieces, Hex.
    unfold mbind at 1. unfold M_bind. rewrite Hd.
    apply truthy_spec in Ha. rewrite Ha. simpl.
    by rewrite (query_200 _ _ _ _ _ Hr). }
  split; [exact E|].
  intros latest names ->. rewrite E. simpl. by rewrite crate_ids_map.
Qed.

(** C8.  The method always returns a list: no exception reaches the caller
    and the budget is not exhausted.  When the last request sent got a
    failing reply, the list is empty.  The graph build, which calls the
    method, returns as well. *)
Theorem C8_fetch_never_raises (n : nat) (p : string) (v : option string)
    (st : state) :
  (∃ ds st',
     fetch_dependencies_for_package (S (S n)) p v st = (Returned ds, st') ∧
     ∀ tr r, sent st' = tr ++ [r] → failed (reg tr r) → ds = []) ∧
  (∃ st', build_dependency_graph (S (S n)) st = (Returned tt, st')).
Proof.
  split.
  - destruct (fetch_returns n p v st) as (ds & st' & E & Hf).
    exists ds, st'. split; [done|]. intros tr r Hs Hfail.
    destruct ds as [|d ds]; [done|].
    destruct (fetches_nonempty _ _ _ _ _ Hf) as (tr' & a & body & Hs' & Hr & Hl);
      [done|].
    rewrite Hs in Hs'. apply app_inj_tail in Hs' as [-> ->].
    rewrite Hr in Hfail. rewrite (listing_failed _ _ Hfail) in Hl; done.
  - destruct (build_dependency_graph_returns n st) as ([] & st' & E).
    by exists st'.
Qed.

(** C9 (amended).  The cache stores the newest-version field as the registry
    sends it.  If no metadata reply of the registry carries the version
    "latest", and no entry of the cache has that value at the start, then no
    entry has it after any calls of the three methods. *)
Theorem C9_latest_is_stored_only_if_sent (n : nat) (cs : list call)
    (st : state) :
  (∀ tr p, reply_version (reg tr (GetCrate p)) ≠ Some (Some "latest")) →
  (∀ p, version_cache st !! p ≠ Some (Some "latest")) →
  ∀ p, version_cache (perform_all (S (S n)) cs st) !! p
       ≠ Some (Some "latest").
Proof.
  intros Hreg Hst p Hp.
  destruct (perform_all_cache_evolves n cs st) as [_ Hnew].
  destruct (Hnew p (Some "latest") Hp) as [Hold | [tr Htr]].
  - by apply (Hst p).
  - by apply (Hreg tr p).
Qed.

(** C10.  [get_latest_version] changes the cache only on a 200 reply whose
    body carries a newest-version field, by storing the value of that field
    for the package.  A bad status or a network failure yields no value to
    store; and whenever the reply yields none, a call for a package that is
    not in the cache returns [None] with the cache as before and the package
    still not in it, so that the next call for the package sends a fresh
    metadata request and returns what that reply gives.  More generally, in
    any state whose cache lacks the package a call sends a fresh metadata
    request. *)
Theorem C10_failures_are_not_cached (p : string) (st : state) :
  (∃ r st',
     get_latest_version p st = (Returned r, st') ∧
     (version_cache st' ≠ version_cache st →
      ∃ data v,
        reg (sent st) (GetCrate p) = Http 200 (Some data) ∧
        newest_version data = Some v ∧
        version_cache st' = <[p := v]> (version_cache st)) ∧
     (no_success (reg (sent st) (GetCrate p)) →
      reply_version (reg (sent st) (GetCrate p)) = None) ∧
     (version_cache st !! p = None →
      reply_version (reg (sent st) (GetCrate p)) = None →
      r = None ∧
      version_cache st' = version_cache st ∧
      version_cache st' !! p = None ∧
      ∃ r2 st2,
        get_latest_version p st' = (Returned r2, st2) ∧
        sent st2 = sent st' ++ [GetCrate p] ∧
        r2 = default None (reply_version (reg (sent st') (GetCrate p))))) ∧
  (∀ s,
     version_cache s !! p = None →
     ∃ r st',
       get_latest_version p s = (Returned r, st') ∧
       sent st' = sent s ++ [GetCrate p] ∧
       r = default None (reply_version (reg (sent s) (GetCrate p)))).
Proof.
  assert (∀ s,
            version_cache s !! p = None →
            ∃ r st',
              get_latest_version p s = (Returned r, st') ∧
              sent st' = sent s ++ [GetCrate p] ∧
              r = default None (reply_version (reg (sent s) (GetCrate p))))
    as Hfresh.
  { intros s Hs.
    destruct (get_latest_version_resolves p s) as (r & st' & E & Hres).
    exists r, st'. split; [done|].
    inversion Hres as [v Hv | v Hn Hr | Hn Hr]; subst; simpl;
      [congruence | by rewrite Hr | by rewrite Hr]. }
  split; [|exact Hfresh].
  destruct (get_latest_version_resolves p st) as (r & st' & E & Hres).
  exists r, st'. split; [done|].
  split; [|split].
  - intros Hchanged.
    inversion Hres as [v Hv | v Hn Hr | Hn Hr]; subst; [done | | done].
    unfold reply_version in Hr.
    destruct (reg (sent st) (GetCrate p)) as [|code [data|]]; try done.
    destruct (code =? 200) eqn:Hcode; [|done].
    apply Z.eqb_eq in Hcode as ->. by exists data, r.
  - intros Hbad. unfold reply_version.
    destruct (reg (sent st) (GetCrate p)) as [|code [data|]]; try done.
    simpl in Hbad. apply Z.eqb_neq in Hbad. by rewrite Hbad.
  - intros Hn Hnone.
    inversion Hres as [v Hv | v Hn' Hr | Hn' Hr]; subst;
      [congruence | congruence |].
    split; [done|]. split; [done|]. split; [done|].
    by apply (Hfresh (record_request (GetCrate p) st)).
Qed.

(** * Further properties *)

(** ** What the fetcher changes *)

Lemma resolves_cache_elsewhere (p : string) (st st' : state)
    (r : option string) :
  resolves p st r st' →
  ∀ q, q ≠ p → version_cache st' !! q = version_cache st !! q.
Proof.
  intros [v Hv | v Hn Hr | Hn Hr] q Hq; simpl; [done | | done].
  by rewrite lookup_insert_ne.
Qed.

Lemma determined_cache_elsewhere (p : string) (st st1 : state)
    (v r : option string) :
  determined p st v r st1 →
  ∀ q, q ≠ p → version_cache st1 !! q = version_cache st !! q.
Proof.
  intros [v' r' st1' Hv Hres | x Hx]; [by eapply resolves_cache_elsewhere|].
  done.
Qed.

Lemma fetches_cache_elsewhere (p : string) (v : option string)
    (st st' : state) (ds : list string) :
  fetches p v st ds st' →
  ∀ q, q ≠ p → version_cache st' !! q = version_cache st !! q.
Proof.
  induction 1; intros q Hq;
    repeat match goal with
           | H : determined _ _ _ _ _ |- _ =>
               apply determined_cache_elsewhere with (q := q) in H; [|done]
           | H : resolves _ _ _ _ |- _ =>
               apply resolves_cache_elsewhere with (q := q) in H; [|done]
           end;
    simpl in *; try done; try congruence.
  rewrite IHfetches by done. congruence.
Qed.

(** ** The filter on every path *)

Lemma kept_not_excluded (names : list string) :
  Forall (λ d, excluded d = false) (kept names).
Proof.
  unfold kept. induction names as [|d names IH]; simpl; [constructor|].
  destruct (excluded d) eqn:E; simpl; [done|]. by constructor.
Qed.

Lemma listing_not_excluded (body : option json) :
  Forall (λ d, excluded d = false) (listing body).
Proof.
  destruct body as [data|]; simpl; [|constructor].
  destruct (crate_ids _); [apply kept_not_excluded | constructor].
Qed.

Lemma fetches_not_excluded (p : string) (v : option string) (st st' : state)
    (ds : list string) :
  fetches p v st ds st' → Forall (λ d, excluded d = false) ds.
Proof. induction 1; try constructor; [apply listing_not_excluded | done]. Qed.

(** ** How many requests a call sends *)

Lemma resolves_length (p : string) (st st' : state) (r : option string) :
  resolves p st r st' → (length (sent st') ≤ S (length (sent st)))%nat.
Proof.
  intros Hres. destruct (resolves_sent _ _ _ _ Hres) as [-> | ->]; [lia|].
  rewrite length_app. simpl. lia.
Qed.

Lemma record_request_length (r : request) (st : state) :
  length (sent (record_request r st)) = S (length (sent st)).
Proof. simpl. rewrite length_app. simpl. lia. Qed.

(** A call for the version that the cache holds sends at most one request. *)
Lemma fetches_pinned_length (p l : string) (st st' : state)
    (ds : list string) :
  version_cache st !! p = Some (Some l) →
  fetches p (Some l) st ds st' →
  (length (sent st') ≤ S (length (sent st)))%nat.
Proof.
  intros Hc Hf.
  inversion Hf as
    [ | ? ? st1 Hex Hd | ? ? st1 Hex Hd
      | ? ? a st1 Hex Hd Ha Hr | ? ? a st1 body Hex Hd Ha Hr
      | ? ? a st1 code body Hex Hd Ha Hr
      | ? ? a st1 body latest st2 Hex Hd Ha Hr Hres
      | ? ? a st1 body l' st2 ? st3 Hex Hd Ha Hr Hres Hl Hla ];
    subst;
    try (destruct (determined_pinned _ _ _ _ _ Hc Hd) as [E ->]);
    try (injection E as <-);
    try discriminate;
    try rewrite record_request_length; try lia.
  - destruct (resolves_hit_inv p (Some a) (record_request (GetDependencies p a) st)
                _ _ Hc Hres) as [_ ->].
    rewrite record_request_length. lia.
  - destruct (resolves_hit_inv p (Some a) (record_request (GetDependencies p a) st)
                _ _ Hc Hres) as [[= ->] _].
    done.
Qed.

(** Any call sends at most three requests; two when the version is left to
    the resolver. *)
Lemma fetches_length (p : string) (v : option string) (st st' : state)
    (ds : list string) :
  fetches p v st ds st' →
  (length (sent st') ≤ 3 + length (sent st))%nat ∧
  (v = None ∨ v = Some "latest" →
   (length (sent st') ≤ 2 + length (sent st))%nat).
Proof.
  assert (∀ r st1, determined p st v r st1 →
            (length (sent st1) ≤ S (length (sent st)))%nat ∧
            ((v = None ∨ v = Some "latest") ∨ st1 = st) ∧
            (v = None ∨ v = Some "latest" →
             ∀ a, r = Some a → version_cache st1 !! p = Some (Some a)))
    as Hdet.
  { intros r st1 Hd. inversion Hd as [? ? ? Hv Hres | x Hx]; subst.
    - split; [by eapply resolves_length|]. split; [by left|].
      intros _ a ->. by eapply resolves_some_cached.
    - split; [lia|]. split; [by right|]. intros [[=]|[= ->]]. done. }
  intros Hf.
  inversion Hf as
    [ | ? ? st1 Hex Hd | ? ? st1 Hex Hd
      | ? ? a st1 Hex Hd Ha Hr | ? ? a st1 body Hex Hd Ha Hr
      | ? ? a st1 code body Hex Hd Ha Hr
      | ? ? a st1 body latest st2 Hex Hd Ha Hr Hres
      | ? ? a st1 body l st2 ? st3 Hex Hd Ha Hr Hres Hl Hla Hin ];
    subst;
    try (destruct (Hdet _ _ Hd) as (Hlen & Hwhere & Hcached));
    try rewrite record_request_length;
    try (split; [lia | intros _; lia]).
  - pose proof (resolves_length _ _ _ _ Hres) as Hlen2.
    rewrite record_request_length in Hlen2.
    destruct Hwhere as [Hv | ->].
    + pose proof (Hcached Hv a eq_refl) as Hc.
      destruct (resolves_hit_inv p (Some a)
                  (record_request (GetDependencies p a) st1) _ _ Hc Hres)
        as [_ ->].
      rewrite record_request_length. split; [lia | intros _; lia].
    + split; [lia | intros _; lia].
  - pose proof (resolves_length _ _ _ _ Hres) as Hlen2.
    rewrite record_request_length in Hlen2.
    pose proof (fetches_pinned_length p l st2 st' ds
                  (resolves_some_cached _ _ _ _ Hres) Hin) as Hlen3.
    destruct Hwhere as [Hv | ->].
    + pose proof (Hcached Hv a eq_refl) as Hc.
      destruct (resolves_hit_inv p (Some a)
                  (record_request (GetDependencies p a) st1) _ _ Hc Hres)
        as [[= ->] _].
      done.
    + split; [lia|]. intros Hv.
      pose proof (Hcached Hv a eq_refl) as Hc.
      destruct (resolves_hit_inv p (Some a)
                  (record_request (GetDependencies p a) st) _ _ Hc Hres)
        as [[= ->] _].
      done.
Qed.

(** ** The builder, step by step *)

(** The state in which the loop of lines 120-125 starts. *)
Lemma build_as_plan (n : nat) (st st1 : state) (direct : list string) :
  fetch_dependencies_for_package (S (S n)) (package args)
    (Some (version args)) st
  = (Returned direct, st1) →
  visited st1 = visited st →
  build_dependency_graph (S (S n)) st
  = for_each (expansion_plan (visited st) (take 3 direct))
      (expand_one (S (S n)))
      (set_all_deps_graph {[package args := direct]}
         (set_deps {[package args := direct]} st1)).
Proof.
  intros Hfetch Hv.
  unfold build_dependency_graph, mbind at 1, M_bind. rewrite Hfetch.
  destruct direct as [|d direct]; [done|].
  unfold mbind, M_bind, modify.
  rewrite for_each_expand_plan. simpl. by rewrite Hv.
Qed.

(** What expanding one name does to the graph and to the record of
    requests. *)
Lemma expand_one_effect (n : nat) (d : string) (st : state) :
  ∃ st',
    expand_one (S (S n)) d st = (Returned tt, st') ∧
    deps st' = deps st ∧
    (length (sent st') ≤ 2 + length (sent st))%nat ∧
    (all_deps_graph st' = all_deps_graph st ∨
     ∃ sub, sub ≠ [] ∧ Forall (λ x, excluded x = false) sub ∧
            all_deps_graph st' = <[d := sub]> (all_deps_graph st)).
Proof.
  unfold expand_one, mbind, M_bind, modify.
  destruct (fetch_returns n d (Some "latest")
              (set_visited ({[d]} ∪ visited st) st))
    as (sub & s1 & -> & Hf).
  destruct (fetches_about _ _ _ _ _ Hf) as (Hdeps & Hg & _ & _).
  destruct (fetches_length _ _ _ _ _ Hf) as [_ Hlen].
  specialize (Hlen (or_intror eq_refl)).
  pose proof (fetches_not_excluded _ _ _ _ _ Hf) as Hkept.
  destruct sub as [|x sub]; eexists; (split; [reflexivity|]); simpl in *.
  - repeat split; [done | done | by left].
  - repeat split; [done | done |]. right. exists (x :: sub).
    repeat split; [done | done | by rewrite Hg].
Qed.

Lemma for_each_expand_one_length (n : nat) (plan : list string) (st : state) :
  ∃ st',
    for_each plan (expand_one (S (S n))) st = (Returned tt, st') ∧
    (length (sent st') ≤ 2 * length plan + length (sent st))%nat.
Proof.
  revert st. induction plan as [|d plan IH]; intros st.
  - exists st. split; [done | simpl; lia].
  - destruct (expand_one_effect n d st) as (s1 & E1 & _ & Hl1 & _).
    destruct (IH s1) as (s2 & E2 & Hl2).
    exists s2. split; [simpl; unfold mbind, M_bind; by rewrite E1|].
    simpl length. lia.
Qed.

(** A property of the graph that every expansion keeps holds at the end. *)
Lemma for_each_expand_one_graph (n : nat)
    (P : gmap string (list string) → Prop) (plan : list string) (st : state) :
  P (all_deps_graph st) →
  (∀ d sub g, d ∈ plan → sub ≠ [] → Forall (λ x, excluded x = false) sub →
              P g → P (<[d := sub]> g)) →
  ∃ st',
    for_each plan (expand_one (S (S n))) st = (Returned tt, st') ∧
    deps st' = deps st ∧
    P (all_deps_graph st').
Proof.
  revert st. induction plan as [|d plan IH]; intros st HP Hstep.
  - by exists st.
  - destruct (expand_one_effect n d st) as (s1 & E1 & Hd1 & _ & Hg1).
    destruct (IH s1) as (s2 & E2 & Hd2 & HP2).
    + destruct Hg1 as [-> | (sub & Hne & Hk & ->)]; [done|].
      apply Hstep; [by left | done..].
    + intros d' sub g Hin. apply Hstep. by right.
    + exists s2. split; [simpl; unfold mbind, M_bind; by rewrite E1|].
      split; [congruence | done].
Qed.

Lemma build_graph_shape (n : nat) (st : state) :
  ∃ direct st1 st2,
    fetch_dependencies_for_package (S (S n)) (package args)
      (Some (version args)) st
    = (Returned direct, st1) ∧
    build_dependency_graph (S (S n)) st = (Returned tt, st2) ∧
    deps st2 = {[package args := direct]} ∧
    graph_shape direct (expansion_plan (visited st) (take 3 direct))
      (all_deps_graph st2).
Proof.
  destruct (fetch_returns n (package args) (Some (version args)) st)
    as (direct & st1 & Hfetch & Hf).
  destruct (fetches_about _ _ _ _ _ Hf) as (_ & _ & Hv & _).
  pose proof (fetches_not_excluded _ _ _ _ _ Hf) as Hkept.
  set (plan := expansion_plan (visited st) (take 3 direct)).
  destruct (for_each_expand_one_graph n (graph_shape direct plan) plan
              (set_all_deps_graph {[package args := direct]}
                 (set_deps {[package args := direct]} st1)))
    as (st2 & E & Hd & Hshape).
  - simpl. split; [by rewrite dom_singleton_L, elem_of_singleton|].
    intros k l [<- <-]%lookup_singleton_Some. split; [by left | done].
  - intros d sub g Hin Hne Hk [Hroot Hkeys]. split.
    + rewrite dom_insert_L. by apply elem_of_union_r.
    + intros k l. rewrite lookup_insert. case_decide as Hkd.
      * intros [= <-]. subst k. split; [by right | done].
      * apply Hkeys.
  - exists direct, st1, st2. split; [done|].
    split; [by rewrite (build_as_plan n st st1 direct Hfetch Hv)|].
    split; [by rewrite Hd | done].
Qed.

(** ** Properties of the fetcher and the builder *)

(** X1.  A call of [fetch_dependencies_for_package] for a package returns
    and leaves [deps], [all_deps_graph] and [visited] as they were; every
    request it sends is about that package, and the cache is unchanged at
    every other package. *)
Theorem X1_fetch_touches_only_its_package (n : nat) (p : string)
    (v : option string) (st : state) :
  ∃ ds st' suffix,
    fetch_dependencies_for_package (S (S n)) p v st = (Returned ds, st') ∧
    deps st' = deps st ∧
    all_deps_graph st' = all_deps_graph st ∧
    visited st' = visited st ∧
    sent st' = sent st ++ suffix ∧
    Forall (λ r, request_package r = p) suffix ∧
    ∀ q, q ≠ p → version_cache st' !! q = version_cache st !! q.
Proof.
  destruct (fetch_returns n p v st) as (ds & st' & E & Hf).
  destruct (fetches_about _ _ _ _ _ Hf) as (Hd & Hg & Hv & sfx & Hs & Ha).
  exists ds, st', sfx. repeat split; try done.
  by apply (fetches_cache_elsewhere _ _ _ _ _ Hf).
Qed.

(** X2.  No name that [fetch_dependencies_for_package] returns is excluded
    by the filter, on any path, the fallback after a 404 included: with a
    non-empty filter no returned name contains it. *)
Theorem X2_fetch_result_is_filtered (n : nat) (p : string)
    (v : option string) (st : state) :
  ∃ ds st',
    fetch_dependencies_for_package (S (S n)) p v st = (Returned ds, st') ∧
    ∀ d, d ∈ ds →
         excluded d = false ∧
         (filter args ≠ "" → contains (filter args) d = false).
Proof.
  destruct (fetch_returns n p v st) as (ds & st' & E & Hf).
  exists ds, st'. split; [done|]. intros d Hd.
  pose proof (fetches_not_excluded _ _ _ _ _ Hf) as Hk.
  rewrite Forall_forall in Hk. specialize (Hk d Hd).
  split; [done|]. intros Hne. unfold excluded in Hk.
  apply truthy_spec in Hne. by rewrite Hne in Hk.
Qed.

(** X3.  A call of [fetch_dependencies_for_package] sends at most three
    requests (the dependency request, the metadata request after a 404, and
    one retry), and at most two when the version is absent or "latest". *)
Theorem X3_fetch_sends_at_most_three (n : nat) (p : string)
    (v : option string) (st : state) :
  ∃ ds st',
    fetch_dependencies_for_package (S (S n)) p v st = (Returned ds, st') ∧
    (length (sent st') ≤ 3 + length (sent st))%nat ∧
    (v = None ∨ v = Some "latest" →
     (length (sent st') ≤ 2 + length (sent st))%nat).
Proof.
  destruct (fetch_returns n p v st) as (ds & st' & E & Hf).
  exists ds, st'. split; [done|]. by apply fetches_length in Hf.
Qed.

(** X4.  [build_dependency_graph] sends at most nine requests, whatever the
    registry answers and however many direct dependencies there are: at most
    three for the root and two for each of at most three expansions. *)
Theorem X4_build_sends_at_most_nine (n : nat) (st : state) :
  ∃ direct st1 st2,
    fetch_dependencies_for_package (S (S n)) (package args)
      (Some (version args)) st
    = (Returned direct, st1) ∧
    build_dependency_graph (S (S n)) st = (Returned tt, st2) ∧
    (length (sent st2)
     ≤ 3 + 2 * length (take 3 direct) + length (sent st))%nat ∧
    (length (sent st2) ≤ 9 + length (sent st))%nat.
Proof.
  destruct (fetch_returns n (package args) (Some (version args)) st)
    as (direct & st1 & Hfetch & Hf).
  destruct (fetches_about _ _ _ _ _ Hf) as (_ & _ & Hv & _).
  destruct (fetches_length _ _ _ _ _ Hf) as [Hlen _].
  destruct (for_each_expand_one_length n
              (expansion_plan (visited st) (take 3 direct))
              (set_all_deps_graph {[package args := direct]}
                 (set_deps {[package args := direct]} st1)))
    as (st2 & E & Hlen2).
  pose proof (expansion_plan_length (visited st) (take 3 direct)) as Hplan.
  pose proof (length_take_le direct 3) as Htake.
  exists direct, st1, st2. split; [done|].
  split; [by rewrite (build_as_plan n st st1 direct Hfetch Hv)|].
  simpl in Hlen2.
  assert (length (take 3 direct) ≤ 3)%nat by (rewrite length_take; lia).
  split; lia.
Qed.

(** X5.  After [build_dependency_graph], [deps] is the single entry of the
    root with its direct dependencies, and the root is a key of
    [all_deps_graph].  Every key of [all_deps_graph] is the root with the
    direct dependencies, or one of the first three direct dependencies, not
    visited before, with a non-empty list.  The root's entry is the list of
    direct dependencies unless the root is among its own first three. *)
Theorem X5_graph_keys_after_build (n : nat) (st : state) :
  ∃ direct st1 st2,
    fetch_dependencies_for_package (S (S n)) (package args)
      (Some (version args)) st
    = (Returned direct, st1) ∧
    build_dependency_graph (S (S n)) st = (Returned tt, st2) ∧
    deps st2 = {[package args := direct]} ∧
    package args ∈ dom (all_deps_graph st2) ∧
    (∀ k l, all_deps_graph st2 !! k = Some l →
            (k = package args ∧ l = direct) ∨
            (k ∈ take 3 direct ∧ (k ∉ visited st) ∧ l ≠ [])) ∧
    (package args ∉ take 3 direct →
     all_deps_graph st2 !! (package args) = Some direct).
Proof.
  destruct (build_graph_shape n st)
    as (direct & st1 & st2 & Hfetch & Hbuild & Hdeps & Hroot & Hkeys).
  exists direct, st1, st2. repeat split; try done.
  - intros k l Hk. destruct (Hkeys k l Hk) as [[Hr | [Hin Hne]] _]; [by left|].
    right. apply expansion_plan_elem in Hin as [? ?]. done.
  - intros Hnot. apply elem_of_dom in Hroot as [l Hl].
    destruct (Hkeys _ l Hl) as [[[_ ->] | [Hin _]] _]; [done|].
    apply expansion_plan_elem in Hin as [? ?]. done.
Qed.

(** X6.  After [build_dependency_graph] no dependency list of
    [all_deps_graph] holds a name that the filter excludes: with a non-empty
    filter, no listed name contains it. *)
Theorem X6_graph_is_filtered (n : nat) (st : state) :
  ∃ st2,
    build_dependency_graph (S (S n)) st = (Returned tt, st2) ∧
    ∀ k l d, all_deps_graph st2 !! k = Some l → d ∈ l →
             excluded d = false ∧
             (filter args ≠ "" → contains (filter args) d = false).
Proof.
  destruct (build_graph_shape n st)
    as (direct & st1 & st2 & Hfetch & Hbuild & Hdeps & Hroot & Hkeys).
  exists st2. split; [done|]. intros k l d Hk Hd.
  destruct (Hkeys k l Hk) as [_ Hall].
  rewrite Forall_forall in Hall. specialize (Hall d Hd).
  split; [done|]. intros Hne. unfold excluded in Hall.
  apply truthy_spec in Hne. by rewrite Hne in Hall.
Qed.

(** X7.  [fetch_dependencies] always returns.  In test mode it sends no
    request, leaves the cache and the visited set alone and installs the
    built-in table as [deps] and [all_deps_graph], so that direct
    dependencies are reported only for a package of the table.  Otherwise
    the package is always found among [deps]: what is reported is the list
    that the fetch of the root returned, and the message that no direct
    dependencies were found is never printed. *)
Theorem X7_fetch_dependencies_reports (test_mode : bool) (n : nat)
    (st : state) :
  ∃ reported st',
    fetch_dependencies test_mode (S (S n)) st = (Returned reported, st') ∧
    (test_mode = true →
     sent st' = sent st ∧ version_cache st' = version_cache st ∧
     visited st' = visited st ∧
     deps st' = test_deps ∧ all_deps_graph st' = test_deps ∧
     reported = test_deps !! (package args)) ∧
    (test_mode = false →
     ∃ direct st1,
       fetch_dependencies_for_package (S (S n)) (package args)
         (Some (version args)) st
       = (Returned direct, st1) ∧
       reported = Some direct ∧
       deps st' = {[package args := direct]}).
Proof.
  destruct test_mode.
  - eexists _, _. split; [reflexivity|]. split; [|done]. intros _. simpl.
    by repeat split.
  - destruct (build_graph_shape n st)
      as (direct & st1 & st2 & Hfetch & Hbuild & Hdeps & _).
    exists (Some direct), st2. split.
    + unfold fetch_dependencies, mbind, M_bind, get_state. rewrite Hbuild.
      simpl. by rewrite Hdeps, lookup_singleton_eq.
    + split; [done|]. intros _. by exists direct, st1.
Qed.

(** X8.  After [build_dependency_graph] the graph is never empty, so
    [create_dot_file_only] always opens the file named after the package:
    when the file can be written it writes exactly that one file, for the
    graph just built; when it cannot, the error is raised to the caller and
    nothing is written.  On a freshly created object the method returns
    without opening a file. *)
Theorem X8_one_dot_file_after_build (openable : string → bool) (n : nat)
    (st : state) :
  (∃ st2,
     build_dependency_graph (S (S n)) st = (Returned tt, st2) ∧
     create_dot_file_only openable args st2
     = if openable (package args +:+ "_deps.dot")
       then Returned [{| file_name := package args +:+ "_deps.dot";
                         file_root := package args;
                         file_graph := all_deps_graph st2 |}]
       else Raised OSError) ∧
  create_dot_file_only openable args init = Returned [].
Proof.
  split; [|done].
  destruct (build_graph_shape n st)
    as (direct & st1 & st2 & _ & Hbuild & _ & Hroot & _).
  exists st2. split; [done|]. unfold create_dot_file_only.
  rewrite bool_decide_eq_false_2; [done|].
  intros Hempty. rewrite Hempty, dom_empty_L in Hroot.
  by apply not_elem_of_empty in Hroot.
Qed.

Lemma expansion_plan_all_seen (seen : gset string) (entries : list string) :
  (∀ d, d ∈ entries → d ∈ seen) → expansion_plan seen entries = [].
Proof.
  intros Hall. destruct (expansion_plan seen entries) as [|d plan] eqn:E; [done|].
  assert (d ∈ expansion_plan seen entries) as Hd by (rewrite E; by left).
  apply expansion_plan_elem in Hd as [Hin Hnot]. by specialize (Hall d Hin).
Qed.

(** X15.  [build_dependency_graph] never clears the visited set.  When the
    first three direct dependencies are all visited already, as on a second
    build of the same root on the same object, it expands nothing: the graph
    is the root's entry alone and no request follows the fetch of the
    root. *)
Theorem X15_rebuild_expands_nothing (n : nat) (st : state) :
  ∃ direct st1 st2,
    fetch_dependencies_for_package (S (S n)) (package args)
      (Some (version args)) st
    = (Returned direct, st1) ∧
    build_dependency_graph (S (S n)) st = (Returned tt, st2) ∧
    visited st ⊆ visited st2 ∧
    ((∀ d, d ∈ take 3 direct → d ∈ visited st) →
     all_deps_graph st2 = {[package args := direct]} ∧
     visited st2 = visited st ∧
     sent st2 = sent st1).
Proof.
  destruct (fetch_returns n (package args) (Some (version args)) st)
    as (direct & st1 & Hfetch & Hf).
  destruct (fetches_about _ _ _ _ _ Hf) as (_ & _ & Hv & _).
  pose proof (build_as_plan n st st1 direct Hfetch Hv) as Hbuild.
  destruct (for_each_plan n (expansion_plan (visited st) (take 3 direct))
              (set_all_deps_graph {[package args := direct]}
                 (set_deps {[package args := direct]} st1))
              (expansion_plan_NoDup _ _))
    as (st2 & E & Hv2 & _).
  exists direct, st1, st2. split; [done|].
  split; [by rewrite Hbuild|]. split.
  - rewrite Hv2. simpl. rewrite Hv. apply union_subseteq_l.
  - intros Hall. rewrite (expansion_plan_all_seen _ _ Hall) in E.
    injection E as <-. simpl. by rewrite Hv.
Qed.

(** X16.  When the filter excludes the root package itself,
    [build_dependency_graph] sends no request at all and leaves the graph
    [{package: []}]; the cache and the visited set are as before. *)
Theorem X16_excluded_root_gives_empty_graph (n : nat) (st : state) :
  excluded (package args) = true →
  build_dependency_graph (S n) st
  = (Returned tt,
     set_all_deps_graph {[package args := []]}
       (set_deps {[package args := []]} st)).
Proof.
  intros Hex. unfold build_dependency_graph, mbind at 1, M_bind.
  simpl fetch_dependencies_for_package. rewrite fetch_body_pieces, Hex.
  reflexivity.
Qed.

End Dependency_viz.

(** * The claims on sample inputs *)

(** The scenario of the specification: of the direct dependencies a, b, a,
    d, e only a and b are expanded, each once. *)
Example build_expands_first_three_once :
  let st := snd (build_dependency_graph app_registry app_args 2 init) in
  sent st
  = [GetDependencies "app" "1.0";
     GetCrate "a"; GetDependencies "a" "1.0";
     GetCrate "b"; GetDependencies "b" "1.0"] ∧
  visited st = {["a"; "b"]} ∧
  all_deps_graph st
  = <["b" := ["x"]]> (<["a" := ["x"]]> {["app" := ["a"; "b"; "a"; "d"; "e"]]}).
Proof. vm_compute. repeat split. Qed.

(** The scenario of the specification: ("demo", "2.0") is answered with 404,
    the resolver gives "3.1", and the result is that of the call with
    "3.1". *)
Lemma C2_witness :
  ∃ st2,
    get_latest_version demo_registry "demo"
      (record_request (GetDependencies "demo" "2.0") init)
    = (Returned (Some "3.1"), st2) ∧
    fetch_dependencies_for_package demo_registry demo_args 2 "demo"
      (Some "2.0") init
    = fetch_dependencies_for_package demo_registry demo_args 2 "demo"
        (Some "3.1") st2.
Proof.
  destruct (C2_fallback_on_404 demo_registry demo_args 0 "demo" (Some "2.0")
              init init "2.0" None)
    as (latest & st2 & Hg & H); [reflexivity | reflexivity | done | reflexivity |].
  assert (latest = Some "3.1") as ->.
  { vm_compute in Hg. by injection Hg. }
  exists st2. split; [exact Hg|].
  change (truthy "3.1" && negb (String.eqb "3.1" "2.0")) with true in H.
  exact (proj1 H).
Defined.

(** A registry that cannot be reached is asked again by every call. *)
Lemma C3_counterexample :
  sent (snd (get_latest_version offline "demo"
               (snd (get_latest_version offline "demo" init))))
  = [GetCrate "demo"; GetCrate "demo"].
Proof. reflexivity. Qed.

(** "latest" for a package that the filter lets through is resolved first. *)
Lemma C4_witness :
  excluded demo_args "demo" = false ∧
  resolves_first demo_registry demo_args 1 "demo" (Some "latest") init.
Proof.
  split; [reflexivity|].
  apply (C4_absent_or_latest_is_resolved_first demo_registry demo_args 1
           "demo" (Some "latest") init); [reflexivity | by right].
Defined.

(** With an empty version string the method returns the empty list without
    calling the resolver, although resolving would have led to the
    dependencies of version 3.1. *)
Lemma C4_counterexample :
  fetch_dependencies_for_package demo_registry plain_args 2 "demo" (Some "")
    init
  = (Returned [], init) ∧
  ¬ resolves_first demo_registry plain_args 1 "demo" (Some "") init.
Proof.
  split; [reflexivity|].
  unfold resolves_first. intros H. vm_compute in H. discriminate H.
Qed.

(** "mio" 1.0 has no dependencies: the graph is the single entry for it. *)
Lemma C5_witness :
  ∃ st2,
    build_dependency_graph demo_registry mio_args 2 init = (Returned tt, st2) ∧
    all_deps_graph st2 = {["mio" := []]}.
Proof.
  destruct (C5_no_dependencies_single_entry demo_registry mio_args 2 init
              (record_request (GetDependencies "mio" "1.0") init))
    as (st2 & Hb & Hg & _); [reflexivity|].
  by exists st2.
Defined.

(** With filter "serde" the package "serde_json" is skipped unasked. *)
Lemma C6_witness :
  filter demo_args ≠ "" ∧
  contains (filter demo_args) "serde_json" = true ∧
  fetch_dependencies_for_package demo_registry demo_args 1 "serde_json"
    (Some "1.0") init
  = (Returned [], init).
Proof.
  split; [done|]. split; [reflexivity|].
  apply C6_filtered_package_is_skipped; [done | reflexivity].
Defined.

(** The scenario of the specification: filter "serde", registry list
    ["serde_json"; "tokio"], result ["tokio"]. *)
Lemma C7_witness :
  fetch_dependencies_for_package demo_registry demo_args 1 "demo"
    (Some "3.1") init
  = (Returned ["tokio"], record_request (GetDependencies "demo" "3.1") init).
Proof.
  refine (proj1 (C7_listing_is_filtered_in_order demo_registry demo_args 0
                   "demo" (Some "3.1") init init "3.1"
                   (Some {| newest_version := None;
                            dependencies :=
                              Some (map Some ["serde_json"; "tokio"]) |})
                   _ _ _ _));
    [reflexivity | reflexivity | done | reflexivity].
Defined.

(** A 200 reply that lists "tokio" and an entry without [crate_id]: the
    method returns the empty list, not ["tokio"]. *)
Lemma C7_counterexample :
  partial_registry [] (GetDependencies "demo" "1.0")
  = Http 200 (Some {| newest_version := None;
                      dependencies := Some [Some "tokio"; None] |}) ∧
  fetch_dependencies_for_package partial_registry plain_args 2 "demo"
    (Some "1.0") init
  = (Returned [], record_request (GetDependencies "demo" "1.0") init).
Proof. split; reflexivity. Qed.

(** The sample registry never names a version "latest", and a run that builds
    the graph and resolves "tokio" caches none. *)
Lemma C9_witness :
  (∀ tr p, reply_version (demo_registry tr (GetCrate p))
           ≠ Some (Some "latest")) ∧
  (∀ p, version_cache init !! p ≠ Some (Some "latest")) ∧
  (∀ p,
     version_cache
       (perform_all demo_registry demo_args 2 [Build; Resolve "tokio"] init)
     !! p ≠ Some (Some "latest")).
Proof.
  assert (∀ tr p, reply_version (demo_registry tr (GetCrate p))
                  ≠ Some (Some "latest")) as Hreg.
  { intros tr p. simpl. destruct (String.eqb p "demo"); discriminate. }
  assert (∀ p, version_cache init !! p ≠ Some (Some "latest")) as Hinit.
  { intros p. simpl. rewrite lookup_empty. discriminate. }
  split; [exact Hreg|]. split; [exact Hinit|].
  exact (C9_latest_is_stored_only_if_sent demo_registry demo_args 0
           [Build; Resolve "tokio"] init Hreg Hinit).
Defined.

(** A registry that names its newest version "latest" gets it cached. *)
Lemma C9_counterexample :
  version_cache (snd (get_latest_version latest_registry "demo" init))
  !! "demo" = Some (Some "latest").
Proof. reflexivity. Qed.

(** * Graphviz output *)

Lemma append_nil_r (s : string) : s +:+ "" = s.
Proof.
  induction s as [|c s IH]; [done|]. by rewrite append_cons, IH.
Qed.

Lemma append_assoc (a b c : string) : (a +:+ b) +:+ c = a +:+ (b +:+ c).
Proof.
  induction a as [|x a IH]; [done|]. by rewrite !append_cons, IH.
Qed.

Lemma concat_strings_app (l1 l2 : list string) :
  concat_strings (l1 ++ l2) = concat_strings l1 +:+ concat_strings l2.
Proof.
  induction l1 as [|s l1 IH]; simpl; [done|]. by rewrite IH, append_assoc.
Qed.

Lemma add_edges_spec (p : string) (deps : list string) (acc : string) :
  add_edges p deps acc = acc +:+ concat_strings (map (edge_line p) deps).
Proof.
  revert acc. induction deps as [|d deps IH]; intros acc; simpl.
  - by rewrite append_nil_r.
  - by rewrite IH, append_assoc.
Qed.

Lemma add_items_spec (items : list (string * list string)) (acc : string) :
  add_items items acc
  = acc +:+ concat_strings (map (λ e, edge_line (fst e) (snd e)) (edges items)).
Proof.
  revert acc. induction items as [|[p deps] items IH]; intros acc; simpl.
  - by rewrite append_nil_r.
  - rewrite IH, add_edges_spec, append_assoc. f_equal.
    unfold edges. simpl. fold (edges items).
    by rewrite map_app, concat_strings_app, map_map.
Qed.

Lemma edges_no_dependencies (items : list (string * list string)) :
  Forall (λ item, snd item = []) items → edges items = [].
Proof.
  unfold edges. induction 1 as [|[p deps] items Hd _ IH]; simpl; [done|].
  simpl in Hd. subst deps. done.
Qed.

(** X9.  The text of [create_dot_file_only] is the header naming the
    package, then one line per edge of the graph, in the order of the dict's
    items and of each dependency list, then the closing brace.  A graph whose
    lists are all empty, such as [{package: []}], gives the header and the
    brace only. *)
Theorem X9_dot_text_is_header_edges_brace (package : string)
    (items : list (string * list string)) :
  dot_content package items
  = dot_header package
    +:+ concat_strings (map (λ e, edge_line (fst e) (snd e)) (edges items))
    +:+ "}" +:+ nl ∧
  length (edges items) = sum_list (map (λ item, length (snd item)) items) ∧
  (Forall (λ item, snd item = []) items →
   dot_content package items = dot_header package +:+ "}" +:+ nl).
Proof.
  assert (dot_content package items
          = dot_header package
            +:+ concat_strings
                  (map (λ e, edge_line (fst e) (snd e)) (edges items))
            +:+ "}" +:+ nl) as Htext.
  { unfold dot_content. by rewrite add_items_spec, append_assoc. }
  split; [done|]. split.
  - clear Htext. unfold edges.
    induction items as [|[p deps] items IH]; simpl; [done|].
    by rewrite length_app, length_map, IH.
  - intros Hall. rewrite Htext, (edges_no_dependencies _ Hall). done.
Qed.

Lemma string_length_app (a b : string) :
  String.length (a +:+ b) = (String.length a + String.length b)%nat.
Proof.
  induction a as [|c a IH]; [done|]. rewrite append_cons. simpl. by rewrite IH.
Qed.

Lemma append_inj_r (a b t : string) : a +:+ t = b +:+ t → a = b.
Proof.
  revert b. induction a as [|c a IH]; intros [|d b] H.
  - done.
  - apply (f_equal String.length) in H.
    rewrite append_cons in H. simpl in H. rewrite !string_length_app in H.
    simpl in H. lia.
  - apply (f_equal String.length) in H.
    rewrite append_cons in H. simpl in H. rewrite !string_length_app in H.
    simpl in H. lia.
  - rewrite !append_cons in H. injection H as -> H. f_equal. by apply IH.
Qed.

(** Two quote-free names followed by a quote: the names and the rests are
    the same. *)
Lemma quote_free_split (p p' r r' : string) :
  quote_free p → quote_free p' →
  p +:+ String "034"%char r = p' +:+ String "034"%char r' →
  p = p' ∧ r = r'.
Proof.
  revert p'. induction p as [|c p IH]; intros [|c' p'] Hp Hp' H.
  - change (String "034"%char r = String "034"%char r') in H.
    by injection H as ->.
  - change (String "034"%char r = String c' (p' +:+ String "034"%char r'))
      in H.
    injection H as <- _. by destruct Hp' as [Hc _].
  - change (String c (p +:+ String "034"%char r) = String "034"%char r')
      in H.
    injection H as -> _. by destruct Hp as [Hc _].
  - rewrite !append_cons in H. injection H as -> H.
    destruct Hp as [_ Hp]. destruct Hp' as [_ Hp'].
    destruct (IH p' Hp Hp' H) as [-> ->]. done.
Qed.

(** X10.  For package names without a double quote the edge line determines
    the edge: two edges with the same line are the same edge.  (Names are not
    escaped, so this needs the hypothesis.) *)
Theorem X10_edge_line_determines_edge (p d p' d' : string) :
  quote_free p → quote_free p' →
  edge_line p d = edge_line p' d' →
  p = p' ∧ d = d'.
Proof.
  intros Hp Hp' H. unfold edge_line, quote in H.
  change ("  " +:+ String "034"%char "" +:+ p +:+ ?x)
    with (String " " (String " " (String "034"%char (p +:+ x)))) in H.
  change ("  " +:+ String "034"%char "" +:+ p' +:+ ?x)
    with (String " " (String " " (String "034"%char (p' +:+ x)))) in H.
  injection H as H.
  change (String "034"%char "" +:+ ?x) with (String "034"%char x) in H.
  destruct (quote_free_split _ _ _ _ Hp Hp' H) as [-> H'].
  split; [done|].
  change (" -> " +:+ String "034"%char "" +:+ ?x)
    with (String " " (String "-" (String ">" (String " "
            (String "034"%char x))))) in H'.
  injection H' as H'. by apply append_inj_r in H'.
Qed.

Lemma X10_witness :
  quote_free "serde" ∧ quote_free "serde" ∧
  edge_line "serde" "serde_derive" = edge_line "serde" "serde_derive" ∧
  "serde" = "serde" ∧ "serde_derive" = "serde_derive".
Proof.
  assert (quote_free "serde") as Hq by (simpl; repeat split; discriminate).
  split; [exact Hq|]. split; [exact Hq|]. split; [reflexivity|].
  exact (X10_edge_line_determines_edge "serde" "serde_derive" "serde"
           "serde_derive" Hq Hq eq_refl).
Defined.

(** With a double quote in a name two different edges share a line. *)
Example edge_line_with_quote_is_ambiguous :
  let q := quote in
  edge_line "a" ("b" +:+ q +:+ " -> " +:+ q +:+ "c")
  = edge_line ("a" +:+ q +:+ " -> " +:+ q +:+ "b") "c".
Proof. reflexivity. Qed.

Lemma edge_calls_app (l1 l2 : list digraph_call) :
  edge_calls (l1 ++ l2) = edge_calls l1 ++ edge_calls l2.
Proof. unfold edge_calls. apply flat_map_app. Qed.

Lemma edge_calls_edges (p : string) (deps : list string) :
  edge_calls (map (Edge p) deps) = map (pair p) deps.
Proof. induction deps as [|d deps IH]; simpl; [done|]. by rewrite <- IH. Qed.

(** X11.  The calls that [generate_graphviz] makes on the [Digraph] draw the
    edges of the graph in the order in which [create_dot_file_only] writes
    them; the root is declared once, with the box shape and the blue colour,
    and never again as a plain node. *)
Theorem X11_digraph_draws_the_same_edges (package : string)
    (items : list (string * list string)) :
  edge_calls (digraph_calls package items) = edges items ∧
  List.filter (declares package) (digraph_calls package items)
  = [Node package package [("shape", "box"); ("color", "blue")]].
Proof.
  unfold digraph_calls. split.
  - simpl. unfold edges.
    induction items as [|[p deps] items IH]; simpl; [done|].
    rewrite !edge_calls_app, IH, edge_calls_edges.
    by case_bool_decide.
  - simpl. rewrite String.eqb_refl. f_equal.
    induction items as [|[p deps] items IH]; simpl; [done|].
    rewrite !List.filter_app, IH, app_nil_r.
    assert (List.filter (declares package) (map (Edge p) deps) = []) as ->.
    { clear IH. induction deps as [|d deps IHd]; simpl; done. }
    rewrite app_nil_r. case_bool_decide as Hp; [|done]. simpl.
    apply String.eqb_neq in Hp. by rewrite Hp.
Qed.

(** * The batch of three examples *)

(** One round: the builder under the arguments in force, then the file. *)
Lemma analyse_example_builds (reg : registry) (openable : string → bool)
    (n : nat) (example : string * string) (w : session) :
  let args := {| package := fst example; version := snd example;
                 filter := filter (session_args w) |} in
  ∃ direct st,
    build_dependency_graph reg args (S (S n)) (reset (session_state w))
    = (Returned tt, st) ∧
    deps st = {[fst example := direct]} ∧
    fst example ∈ dom (all_deps_graph st) ∧
    analyse_example (λ a, build_dependency_graph reg a (S (S n))) openable
      example w
    = if openable (fst example +:+ "_deps.dot") then
        (Returned tt,
         {| session_args := args; session_state := st;
            session_files :=
              session_files w
              ++ [{| file_name := fst example +:+ "_deps.dot";
                     file_root := fst example;
                     file_graph := all_deps_graph st |}] |})
      else
        (Raised OSError,
         {| session_args := args; session_state := st;
            session_files := session_files w |}).
Proof.
  intros args.
  destruct (build_graph_shape reg args n (reset (session_state w)))
    as (direct & st1 & st & _ & Hbuild & Hdeps & Hroot & _).
  exists direct, st. split; [done|]. split; [done|]. split; [done|].
  unfold analyse_example. fold args. rewrite Hbuild.
  unfold create_dot_file_only. rewrite bool_decide_eq_false_2.
  - simpl. by destruct (openable _).
  - intros Hempty. rewrite Hempty, dom_empty_L in Hroot.
    by apply not_elem_of_empty in Hroot.
Qed.

Lemma analyse_all_cons (build : Args → M unit) (openable : string → bool)
    (example : string * string) (rest : list (string * string))
    (w : session) :
  analyse_all build openable (example :: rest) w
  = match analyse_example build openable example w with
    | (Returned _, w') => analyse_all build openable rest w'
    | failure => failure
    end.
Proof. reflexivity. Qed.

(** The batch, round by round, when the three files can be written. *)
Lemma run_three_examples_rounds (reg : registry) (openable : string → bool)
    (n : nat) (w : session) :
  openable "serde_deps.dot" = true →
  openable "tokio_deps.dot" = true →
  openable "clap_deps.dot" = true →
  ∃ d1 s1 d2 s2 d3 s3,
    deps s1 = {["serde" := d1]} ∧ "serde" ∈ dom (all_deps_graph s1) ∧
    deps s2 = {["tokio" := d2]} ∧ "tokio" ∈ dom (all_deps_graph s2) ∧
    deps s3 = {["clap" := d3]} ∧ "clap" ∈ dom (all_deps_graph s3) ∧
    build_dependency_graph reg
      {| package := "clap"; version := "4.0";
         filter := filter (session_args w) |} (S (S n)) (reset s2)
    = (Returned tt, s3) ∧
    run_three_examples (λ a, build_dependency_graph reg a (S (S n)))
      openable w
    = (Returned tt,
       {| session_args :=
            {| package := package (session_args w); version := "4.0";
               filter := filter (session_args w) |};
          session_state := s3;
          session_files :=
            session_files w
            ++ [DotFile "serde_deps.dot" "serde" (all_deps_graph s1);
                DotFile "tokio_deps.dot" "tokio" (all_deps_graph s2);
                DotFile "clap_deps.dot" "clap" (all_deps_graph s3)] |}).
Proof.
  intros Hserde Htokio Hclap.
  unfold run_three_examples, examples.
  rewrite analyse_all_cons.
  destruct (analyse_example_builds reg openable n ("serde", "latest") w)
    as (d1 & s1 & _ & Hd1 & H1 & ->).
  change (("serde", "latest").1 +:+ "_deps.dot") with "serde_deps.dot".
  rewrite Hserde. cbv beta iota. rewrite analyse_all_cons.
  match goal with
  | |- context [analyse_example _ _ ("tokio", "1.0") ?w1] =>
      destruct (analyse_example_builds reg openable n ("tokio", "1.0") w1)
        as (d2 & s2 & _ & Hd2 & H2 & ->)
  end.
  change (("tokio", "1.0").1 +:+ "_deps.dot") with "tokio_deps.dot".
  rewrite Htokio. cbv beta iota. rewrite analyse_all_cons.
  match goal with
  | |- context [analyse_example _ _ ("clap", "4.0") ?w2] =>
      destruct (analyse_example_builds reg openable n ("clap", "4.0") w2)
        as (d3 & s3 & Hb3 & Hd3 & H3 & ->)
  end.
  change (("clap", "4.0").1 +:+ "_deps.dot") with "clap_deps.dot".
  rewrite Hclap.
  exists d1, s1, d2, s2, d3, s3.
  repeat (split; [done|]). simpl. by rewrite <- !app_assoc.
Qed.

(** X12.  When the three files can be written, [run_three_examples]
    completes, whatever the registry answers, and writes exactly three
    files, "serde_deps.dot", "tokio_deps.dot" and "clap_deps.dot", in this
    order, each for a graph that has its package as a key. *)
Theorem X12_batch_writes_three_files (reg : registry)
    (openable : string → bool) (n : nat) (w : session) :
  openable "serde_deps.dot" = true →
  openable "tokio_deps.dot" = true →
  openable "clap_deps.dot" = true →
  ∃ w' g1 g2 g3,
    run_three_examples (λ a, build_dependency_graph reg a (S (S n)))
      openable w
    = (Returned tt, w') ∧
    session_files w'
    = session_files w
      ++ [DotFile "serde_deps.dot" "serde" g1;
          DotFile "tokio_deps.dot" "tokio" g2;
          DotFile "clap_deps.dot" "clap" g3] ∧
    "serde" ∈ dom g1 ∧ "tokio" ∈ dom g2 ∧ "clap" ∈ dom g3.
Proof.
  intros Hserde Htokio Hclap.
  destruct (run_three_examples_rounds reg openable n w Hserde Htokio Hclap)
    as (d1 & s1 & d2 & s2 & d3 & s3 & _ & H1 & _ & H2 & _ & H3 & _ & ->).
  by eexists _, (all_deps_graph s1), (all_deps_graph s2), (all_deps_graph s3).
Qed.

(** An unreachable registry and a writable directory: three files all the
    same. *)
Lemma X12_witness :
  ∃ w' g1 g2 g3,
    run_three_examples (λ a, build_dependency_graph offline a 2)
      all_openable (Session plain_args init [])
    = (Returned tt, w') ∧
    session_files w'
    = [DotFile "serde_deps.dot" "serde" g1;
       DotFile "tokio_deps.dot" "tokio" g2;
       DotFile "clap_deps.dot" "clap" g3] ∧
    "serde" ∈ dom g1 ∧ "tokio" ∈ dom g2 ∧ "clap" ∈ dom g3.
Proof.
  exact (X12_batch_writes_three_files offline all_openable 0
           (Session plain_args init []) eq_refl eq_refl eq_refl).
Defined.

(** X13.  After a [run_three_examples] whose three files could be written,
    the package of the arguments is the one it was before, but the version
    is left at "4.0", that of the last example, and [deps] is the graph of
    "clap" alone: the object no longer describes the package its arguments
    name.  The filter is unchanged. *)
Theorem X13_batch_restores_package_only (reg : registry)
    (openable : string → bool) (n : nat) (w : session) :
  openable "serde_deps.dot" = true →
  openable "tokio_deps.dot" = true →
  openable "clap_deps.dot" = true →
  ∃ w' direct,
    run_three_examples (λ a, build_dependency_graph reg a (S (S n)))
      openable w
    = (Returned tt, w') ∧
    package (session_args w') = package (session_args w) ∧
    version (session_args w') = "4.0" ∧
    filter (session_args w') = filter (session_args w) ∧
    deps (session_state w') = {["clap" := direct]}.
Proof.
  intros Hserde Htokio Hclap.
  destruct (run_three_examples_rounds reg openable n w Hserde Htokio Hclap)
    as (d1 & s1 & d2 & s2 & d3 & s3 & _ & _ & _ & _ & Hd3 & _ & _ & ->).
  by eexists _, d3.
Qed.

Lemma X13_witness :
  ∃ w' direct,
    run_three_examples (λ a, build_dependency_graph demo_registry a 2)
      all_openable (Session demo_args init [])
    = (Returned tt, w') ∧
    package (session_args w') = "demo" ∧
    version (session_args w') = "4.0" ∧
    filter (session_args w') = "serde" ∧
    deps (session_state w') = {["clap" := direct]}.
Proof.
  exact (X13_batch_restores_package_only demo_registry all_openable 0
           (Session demo_args init []) eq_refl eq_refl eq_refl).
Defined.



(** A round of the batch reads the session only for its filter, the record
    of requests and the files written so far. *)
Lemma analyse_example_fresh (build : Args → M unit)
    (openable : string → bool) (example : string * string) (w : session) :
  let c := fresh_session (filter (session_args w))
             (sent (session_state w)) in
  analyse_example build openable example w
  = (fst (analyse_example build openable example c),
     {| session_args :=
          session_args (snd (analyse_example build openable example c));
        session_state :=
          session_state (snd (analyse_example build openable example c));
        session_files :=
          session_files w
          ++ session_files (snd (analyse_example build openable example c)) |}).
Proof.
  simpl. unfold analyse_example, fresh_session. simpl.
  change (reset {| deps := ∅; all_deps_graph := ∅; visited := ∅;
                   version_cache := ∅; sent := sent (session_state w) |})
    with (reset (session_state w)).
  destruct (build _ (reset (session_state w))) as [[[]|e|] st]; simpl;
    [| by rewrite ?app_nil_r..].
  destruct (create_dot_file_only openable _ st) as [files|e|]; simpl;
    by rewrite ?app_nil_r.
Qed.

(** The files written so far are only added to. *)
Lemma analyse_all_files (build : Args → M unit) (openable : string → bool)
    (todo : list (string * string)) (a : Args) (s : state)
    (files : list written) :
  analyse_all build openable todo (Session a s files)
  = (fst (analyse_all build openable todo (Session a s [])),
     {| session_args :=
          session_args (snd (analyse_all build openable todo (Session a s [])));
        session_state :=
          session_state
            (snd (analyse_all build openable todo (Session a s [])));
        session_files :=
          files
          ++ session_files
               (snd (analyse_all build openable todo (Session a s []))) |}).
Proof.
  revert a s files. induction todo as [|ex todo IH]; intros a s files.
  - simpl. by rewrite app_nil_r.
  - rewrite !analyse_all_cons. unfold analyse_example. simpl.
    destruct (build _ (reset s)) as [[[]|e|] st]; simpl;
      [| by rewrite app_nil_r..].
    destruct (create_dot_file_only openable _ st) as [new|e|]; simpl;
      [| by rewrite app_nil_r..].
    rewrite (IH _ st (files ++ new)), (IH _ st new).
    simpl. by rewrite <- app_assoc.
Qed.

Lemma analyse_all_fresh (build : Args → M unit) (openable : string → bool)
    (todo : list (string * string)) (w : session) :
  todo ≠ [] →
  let c := fresh_session (filter (session_args w))
             (sent (session_state w)) in
  analyse_all build openable todo w
  = (fst (analyse_all build openable todo c),
     {| session_args := session_args (snd (analyse_all build openable todo c));
        session_state :=
          session_state (snd (analyse_all build openable todo c));
        session_files :=
          session_files w
          ++ session_files (snd (analyse_all build openable todo c)) |}).
Proof.
  intros Hne c. destruct todo as [|ex todo]; [done|].
  rewrite !analyse_all_cons.
  rewrite (analyse_example_fresh build openable ex w). fold c.
  destruct (analyse_example build openable ex c) as [[[]|e|] [a' s' f']];
    simpl; [|done..].
  rewrite (analyse_all_files build openable todo a' s' (session_files w ++ f')).
  rewrite (analyse_all_files build openable todo a' s' f').
  simpl. by rewrite <- app_assoc.
Qed.

(** X14.  Nothing of an earlier analysis enters the batch: run on any
    session, [run_three_examples] has the outcome, leaves the state, and
    writes the files, that it has, leaves and writes on a freshly created
    object with the same filter after the same requests.  Of the session it
    reads only the filter, the record of requests and the package name it
    puts back. *)
Theorem X14_batch_starts_afresh (build : Args → M unit)
    (openable : string → bool) (w : session) :
  let c := fresh_session (filter (session_args w))
             (sent (session_state w)) in
  fst (run_three_examples build openable w)
  = fst (run_three_examples build openable c) ∧
  session_state (snd (run_three_examples build openable w))
  = session_state (snd (run_three_examples build openable c)) ∧
  session_files (snd (run_three_examples build openable w))
  = session_files w
    ++ session_files (snd (run_three_examples build openable c)).
Proof.
  intros c. unfold run_three_examples.
  rewrite (analyse_all_fresh build openable examples w); [|done]. fold c.
  destruct (analyse_all build openable examples c) as [[[]|e|] c']; simpl; done.
Qed.

(** With filter "serde" the root "serde_json" is analysed without a single
    request. *)
Lemma X16_witness :
  excluded {| package := "serde_json"; version := "latest";
              filter := "serde" |} "serde_json" = true ∧
  sent (snd (build_dependency_graph demo_registry
               {| package := "serde_json"; version := "latest";
                  filter := "serde" |} 2 init)) = [] ∧
  all_deps_graph (snd (build_dependency_graph demo_registry
                         {| package := "serde_json"; version := "latest";
                            filter := "serde" |} 2 init))
  = {["serde_json" := []]}.
Proof.
  split; [reflexivity|].
  rewrite (X16_excluded_root_gives_empty_graph demo_registry
             {| package := "serde_json"; version := "latest";
                filter := "serde" |} 1 init eq_refl).
  by split.
Defined.

(** A 200 reply whose newest-version field is null: the call returns [None],
    the cache holds Python's None for the package, and the next call is
    answered from the cache without a request. *)
Example null_version_is_cached :
  let first := get_latest_version null_registry "demo" init in
  let second := get_latest_version null_registry "demo" (snd first) in
  fst first = Returned None ∧
  version_cache (snd first) !! "demo" = Some None ∧
  fst second = Returned None ∧
  sent (snd second) = [GetCrate "demo"].
Proof. vm_compute. repeat split. Qed.
